(** * A shallow embedding of [src/lib/unicode.ts] (and of its earlier variant,
    the unnamed module [src/unnamed/part_000]) of unicode-gacha.

    JavaScript strings are sequences of UTF-16 code units, modelled as
    [list Z]; literals are written [js "..."] (ASCII text).  A JavaScript
    [undefined] read from an array is [None].  Integral JavaScript numbers
    are [Z]; [NaN] is [None] where it can arise.  The pool weights and the
    values of [Math.random()] are modelled as exact rationals [Q]: the
    claims about the draw are stated over exact arithmetic, and the rounding
    of IEEE doubles is not modelled. *)

From Stdlib Require Import ZArith QArith Lqa Strings.String Strings.Ascii Bool Lia Sorting.Sorted.
From stdpp Require Import base gmap list.

Open Scope Z_scope.

(** ** JavaScript strings *)

Definition jsstr := list Z.

Definition js (s : string) : jsstr :=
  map (fun a => Z.of_nat (nat_of_ascii a)) (list_ascii_of_string s).

(** [s.startsWith(p)] *)
Fixpoint starts_with (p s : jsstr) : bool :=
  match p, s with
  | [], _ => true
  | x :: p', y :: s' => (x =? y) && starts_with p' s'
  | _ :: _, [] => false
  end.

(** [s.endsWith(p)] *)
Definition ends_with (p s : jsstr) : bool := starts_with (rev p) (rev s).

(** [s.includes(p)] *)
Fixpoint includes (p s : jsstr) : bool :=
  starts_with p s ||
  match s with
  | [] => false
  | _ :: s' => includes p s'
  end.

(** [s.split(sep)] for a non-empty separator: the current piece is kept
    reversed in [cur]; as soon as it ends with [sep] it is emitted without
    the separator.  This cuts at the leftmost occurrences, as ECMAScript's
    [String.prototype.split] does. *)
Fixpoint split_go (sep s cur : jsstr) : list jsstr :=
  match s with
  | [] => [rev cur]
  | x :: s' =>
      if starts_with (rev sep) (x :: cur)
      then rev (drop (length sep) (x :: cur)) :: split_go sep s' []
      else split_go sep s' (x :: cur)
  end.

(** [s.split(sep)]; the empty separator splits into single code units. *)
Definition js_split (sep s : jsstr) : list jsstr :=
  match sep with
  | [] => map (fun x => [x]) s
  | _ => split_go sep s []
  end.

(** [arr.join(sep)] *)
Fixpoint js_join (sep : jsstr) (l : list jsstr) : jsstr :=
  match l with
  | [] => []
  | [x] => x
  | x :: l' => x ++ sep ++ js_join sep l'
  end.

(** ECMAScript's StrWhiteSpaceChar: WhiteSpace and LineTerminator. *)
Definition is_ws (c : Z) : bool :=
  (c =? 9) || (c =? 10) || (c =? 11) || (c =? 12) || (c =? 13) || (c =? 32)
  || (c =? 160) || (c =? 5760) || ((8192 <=? c) && (c <=? 8202))
  || (c =? 8232) || (c =? 8233) || (c =? 8239) || (c =? 8287)
  || (c =? 12288) || (c =? 65279).

Fixpoint trim_start (s : jsstr) : jsstr :=
  match s with
  | c :: s' => if is_ws c then trim_start s' else s
  | [] => []
  end.

(** [s.trim()] *)
Definition trim (s : jsstr) : jsstr := rev (trim_start (rev (trim_start s))).

(** [s.slice(b, e)] with ECMAScript's handling of negative and
    out-of-range positions. *)
Definition rel_index (k len : Z) : Z :=
  if k <? 0 then Z.max (len + k) 0 else Z.min k len.

Definition slice (s : jsstr) (b e : Z) : jsstr :=
  let len := Z.of_nat (length s) in
  let from := rel_index b len in
  let to := rel_index e len in
  take (Z.to_nat (to - from)) (drop (Z.to_nat from) s).

(** [s.toUpperCase()], on the ASCII range (the names of UnicodeData.txt
    are ASCII); other code units are left unchanged. *)
Definition upper_unit (c : Z) : Z :=
  if (97 <=? c) && (c <=? 122) then c - 32 else c.

Definition to_upper (s : jsstr) : jsstr := map upper_unit s.

(** The value of a hexadecimal digit. *)
Definition hex_digit (c : Z) : option Z :=
  if (48 <=? c) && (c <=? 57) then Some (c - 48)
  else if (97 <=? c) && (c <=? 102) then Some (c - 87)
  else if (65 <=? c) && (c <=? 70) then Some (c - 55)
  else None.

(** The digit values of the longest prefix made of hexadecimal digits. *)
Fixpoint hex_prefix (s : jsstr) : list Z :=
  match s with
  | c :: s' => match hex_digit c with
               | Some d => d :: hex_prefix s'
               | None => []
               end
  | [] => []
  end.

Definition digits_value (ds : list Z) : Z :=
  fold_left (fun acc d => acc * 16 + d) ds 0.

(** [parseInt(s, 16)]: leading white space, an optional sign, an optional
    [0x]/[0X] prefix, then the longest run of hexadecimal digits; [None]
    is [NaN].  The result is the exact value of the digits: JavaScript
    returns the double nearest to it, which is that value whenever its
    magnitude is at most [2^53] (every such integer is a double); above
    [2^53] JavaScript rounds and this model does not. *)
Definition parseInt16 (s : jsstr) : option Z :=
  let s1 := trim_start s in
  let '(sign, s2) :=
    match s1 with
    | c :: t => if c =? 45 then (-1, t) else if c =? 43 then (1, t) else (1, s1)
    | [] => (1, s1)
    end in
  let s3 :=
    match s2 with
    | c1 :: c2 :: t => if (c1 =? 48) && ((c2 =? 120) || (c2 =? 88)) then t else s2
    | _ => s2
    end in
  match hex_prefix s3 with
  | [] => None
  | ds => Some (sign * digits_value ds)
  end.

(** The lower-case hexadecimal digit for [0 <= d < 16]. *)
Definition hex_char (d : Z) : Z := if d <? 10 then 48 + d else 87 + d.

Fixpoint hex_go (fuel : nat) (n : Z) (acc : jsstr) : jsstr :=
  match fuel with
  | O => acc
  | S f =>
      let acc' := hex_char (n mod 16) :: acc in
      if n <? 16 then acc' else hex_go f (n / 16) acc'
  end.

(** [n.toString(16)] for an integral [n]. *)
Definition toString16 (n : Z) : jsstr :=
  if n <? 0 then 45 :: hex_go (S (Z.to_nat (Z.log2 (- n)))) (- n) []
  else hex_go (S (Z.to_nat (Z.log2 n))) n [].

(** [s.padStart(k, "0")] *)
Definition pad_start_zero (k : nat) (s : jsstr) : jsstr :=
  repeat 48 (k - length s) ++ s.

(** [String.fromCharCode(n)]: one code unit, [ToUint16(n)]. *)
Definition fromCharCode (n : Z) : jsstr := [n mod 65536].

(** A value read from a JavaScript array, or [undefined]. *)
Definition js_get (l : list jsstr) (k : nat) : option jsstr := nth_error l k.

(** Interpolating a string-or-undefined in a template literal. *)
Definition tmpl (v : option jsstr) : jsstr :=
  match v with
  | Some s => s
  | None => js "undefined"
  end.

(** ** Records (the interfaces of unicode.ts) *)

(** [CodePointData]; [cp_id] is [None] for [NaN], a field is [None] when the
    line had too few fields to fill it. *)
Record CodePointData := mkCodePointData {
  cp_id : option Z;
  name : option jsstr;
  general_category : option jsstr;
  canonical_combining_class : option jsstr;
  bidi_class : option jsstr;
  decomposition_type : option jsstr;
  decomposition_mapping : option jsstr;
  numeric_type : option jsstr;
  numeric_value : option jsstr;
  bidi_mirrored : option jsstr;
  unicode_1_name : option jsstr;
  iso_comment : option jsstr;
  simple_uppercase_mapping : option jsstr;
  simple_lowercase_mapping : option jsstr;
  simple_titlecase_mapping : option jsstr
}.

(** [{ ...cp, id: k }] *)
Definition set_id (k : Z) (c : CodePointData) : CodePointData :=
  {| cp_id := Some k; name := name c; general_category := general_category c;
     canonical_combining_class := canonical_combining_class c;
     bidi_class := bidi_class c; decomposition_type := decomposition_type c;
     decomposition_mapping := decomposition_mapping c;
     numeric_type := numeric_type c; numeric_value := numeric_value c;
     bidi_mirrored := bidi_mirrored c; unicode_1_name := unicode_1_name c;
     iso_comment := iso_comment c;
     simple_uppercase_mapping := simple_uppercase_mapping c;
     simple_lowercase_mapping := simple_lowercase_mapping c;
     simple_titlecase_mapping := simple_titlecase_mapping c |}.

Definition set_name (n : jsstr) (c : CodePointData) : CodePointData :=
  {| cp_id := cp_id c; name := Some n; general_category := general_category c;
     canonical_combining_class := canonical_combining_class c;
     bidi_class := bidi_class c; decomposition_type := decomposition_type c;
     decomposition_mapping := decomposition_mapping c;
     numeric_type := numeric_type c; numeric_value := numeric_value c;
     bidi_mirrored := bidi_mirrored c; unicode_1_name := unicode_1_name c;
     iso_comment := iso_comment c;
     simple_uppercase_mapping := simple_uppercase_mapping c;
     simple_lowercase_mapping := simple_lowercase_mapping c;
     simple_titlecase_mapping := simple_titlecase_mapping c |}.

(** [BlockData]; [start] and [end] are [None] for [NaN]. *)
Record BlockData := mkBlockData {
  block_id : Z;
  block_start : option Z;
  block_end : option Z;
  block_name : option jsstr;
  color : jsstr
}.

Record CJKReading := mkCJKReading {
  field : option jsstr;
  text : option jsstr
}.

Record CardData := mkCardData {
  card_id : Z;
  card_name : option jsstr;
  description : jsstr;
  char : jsstr;
  blockName : jsstr;
  blockColor : jsstr
}.

(** The state of a [UnicodeData] object: [data] and [cjkData] are objects
    keyed by number, [blocks] an array. *)
Record UnicodeData := mkUnicodeData {
  data : gmap Z CodePointData;
  blocks : list BlockData;
  cjkData : gmap Z (list CJKReading)
}.

(** The outcome of a method that may throw a [TypeError] (reading a
    property of [undefined]). *)
Inductive js_result (A : Type) := Ret (a : A) | Throw.
Arguments Ret {A} a.
Arguments Throw {A}.

(** ** Parsers *)

(** [UnicodeData.parseCodePoint] (the same code as [parseLine] of the
    earlier variant). *)
Definition parseCodePoint (line : jsstr) : CodePointData :=
  let l := js_split (js ";") line in
  {| cp_id := match js_get l 0 with
              | Some s => parseInt16 s
              | None => None
              end;
     name := js_get l 1; general_category := js_get l 2;
     canonical_combining_class := js_get l 3; bidi_class := js_get l 4;
     decomposition_type := js_get l 5; decomposition_mapping := js_get l 6;
     numeric_type := js_get l 7; numeric_value := js_get l 8;
     bidi_mirrored := js_get l 9; unicode_1_name := js_get l 10;
     iso_comment := js_get l 11; simple_uppercase_mapping := js_get l 12;
     simple_lowercase_mapping := js_get l 13;
     simple_titlecase_mapping := js_get l 14 |}.

(** [parseInt(undefined, 16)] is [parseInt("undefined", 16)], i.e. NaN. *)
Definition parseInt16_field (v : option jsstr) : option Z :=
  parseInt16 (tmpl v).

(** [UnicodeData.parseBlock] *)
Definition parseBlock (line : jsstr) : BlockData :=
  let blockList := js_split (js ";") line in
  let blockRange := js_split (js "..") (tmpl (js_get blockList 0)) in
  {| block_id := 0;
     block_start := parseInt16_field (js_get blockRange 0);
     block_end := parseInt16_field (js_get blockRange 1);
     block_name := js_get blockList 1;
     color := [] |}.

(** [UnicodeData.parseCJKReading]; [replace] of ["U+"] by the empty
    string replaces the first occurrence only. *)
Fixpoint replace_first (p r s : jsstr) : jsstr :=
  if starts_with p s then r ++ drop (length p) s
  else match s with
       | [] => []
       | c :: s' => c :: replace_first p r s'
       end.

Definition parseCJKReading (line : jsstr) : option Z * CJKReading :=
  let l := js_split [9] line in
  (parseInt16 (replace_first (js "U+") [] (tmpl (js_get l 0))),
   {| field := js_get l 1; text := js_get l 2 |}).

(** ** Hangul syllable names and range expansion *)

Definition initials : list jsstr :=
  map js ["g"; "gg"; "n"; "d"; "dd"; "r"; "m"; "b"; "bb"; "s"; "ss"; EmptyString;
          "j"; "jj"; "ch"; "k"; "t"; "p"; "h"]%string.

Definition vowels : list jsstr :=
  map js ["a"; "ae"; "ya"; "yae"; "eo"; "e"; "yeo"; "ye"; "o"; "wa"; "wae";
          "oe"; "yo"; "u"; "weo"; "we"; "wi"; "yu"; "eu"; "ui"; "i"]%string.

Definition finals : list jsstr :=
  map js [EmptyString; "g"; "gg"; "gs"; "n"; "nj"; "nh"; "d"; "l"; "lg"; "lm"; "lb";
          "ls"; "lt"; "lp"; "lh"; "m"; "b"; "bs"; "s"; "ss"; "ng"; "j"; "ch";
          "k"; "t"; "p"; "h"]%string.

(** [arr[k]] for an integral [k]: [undefined] outside [0 .. length - 1]. *)
Definition arr_get (arr : list jsstr) (k : Z) : option jsstr :=
  if k <? 0 then None else nth_error arr (Z.to_nat k).

(** [UnicodeData.getHangulSyllableName]: [Math.floor(x / y)] on integers is
    [Z.div], [%] is the truncated remainder [Z.rem]. *)
Definition getHangulSyllableName (id : Z) : jsstr :=
  let order := id - 0xAC00 in
  let initial := arr_get initials (order / 588) in
  let vowel := arr_get vowels (Z.rem order 588 / 28) in
  let final := arr_get finals (Z.rem order 28) in
  tmpl initial ++ tmpl vowel ++ tmpl final.

(** The integers [a, a+1, ..., b] (empty when [b < a]). *)
Fixpoint zrange_go (n : nat) (a : Z) : list Z :=
  match n with
  | O => []
  | S n' => a :: zrange_go n' (a + 1)
  end.

Definition zrange (a b : Z) : list Z := zrange_go (Z.to_nat (b - a + 1)) a.

(** The record [addRange] stores at [id]. *)
Definition range_record (rangeName : jsstr) (cp : CodePointData) (id : Z)
  : CodePointData :=
  let isHangul := includes (js "Hangul") rangeName in
  set_name
    (if isHangul
     then to_upper (rangeName ++ js " " ++ getHangulSyllableName id)
     else to_upper (rangeName ++ js " " ++ toString16 id))
    (set_id id cp).

(** [UnicodeData.addRange] *)
Definition addRange (rangeFirst rangeLast : Z) (rangeName : jsstr)
  (cp : CodePointData) (d : gmap Z CodePointData) : gmap Z CodePointData :=
  fold_left (fun d id => <[id := range_record rangeName cp id]> d)
    (zrange rangeFirst rangeLast) d.

(** ** The code-point loader [UnicodeData.addUnicodeData] *)

(** The loop's mutable state: [this.data] and the local [rangeFirst]. *)
Record LoaderState := mkLoaderState {
  ld_data : gmap Z CodePointData;
  rangeFirst : Z
}.

(** One iteration of the [for (const line of lines)] loop; [Throw] is the
    [TypeError] of [codePointData.name.endsWith] when the name is
    [undefined]. *)
Definition loader_step (rangeStart rangeEnd : Z) (st : LoaderState)
  (line : jsstr) : js_result LoaderState :=
  if starts_with (js "#") line then Ret st else
  let cp := parseCodePoint line in
  (* [NaN < x] and [NaN > x] are both false *)
  let out_of_bounds :=
    match cp_id cp with
    | Some k => (k <? rangeStart) || (rangeEnd <? k)
    | None => false
    end in
  if out_of_bounds then Ret st else
  match cp_id cp with
  | None => Ret st
  | Some k =>
      match name cp with
      | None => Throw
      | Some n =>
          if ends_with (js ">") n then
            if ends_with (js "First>") n then
              Ret {| ld_data := ld_data st; rangeFirst := k |}
            else if ends_with (js "Last>") n then
              let rangeLast := k in
              let rangeName := slice n 1 (-7) in
              if includes (js "CJK") rangeName || includes (js "Hangul") rangeName
              then Ret {| ld_data := addRange (rangeFirst st) rangeLast rangeName cp
                                        (ld_data st);
                          rangeFirst := rangeFirst st |}
              else Ret st
            else Ret st
          else Ret {| ld_data := <[k := cp]> (ld_data st); rangeFirst := rangeFirst st |}
      end
  end.

(** The loop; the boolean tells whether it stopped on a thrown error, the
    state is then the one reached when it was thrown. *)
Fixpoint loader_loop (rangeStart rangeEnd : Z) (st : LoaderState)
  (lines : list jsstr) : LoaderState * bool :=
  match lines with
  | [] => (st, false)
  | line :: rest =>
      match loader_step rangeStart rangeEnd st line with
      | Ret st' => loader_loop rangeStart rangeEnd st' rest
      | Throw => (st, true)
      end
  end.

(** [UnicodeData.addUnicodeData(rangeStart, rangeEnd)] once the file has
    been read into [fileContent]. *)
Definition addUnicodeData (rangeStart rangeEnd : Z) (fileContent : jsstr)
  (u : UnicodeData) : UnicodeData * bool :=
  let lines := js_split [10] fileContent in
  let '(st, raised) :=
    loader_loop rangeStart rangeEnd {| ld_data := data u; rangeFirst := 0 |} lines in
  ({| data := ld_data st; blocks := blocks u; cjkData := cjkData u |}, raised).

Definition emptyUnicodeData : UnicodeData :=
  {| data := ∅; blocks := []; cjkData := ∅ |}.

(** ** Blocks and their colors ([UnicodeData.loadBlocks]) *)

(** [ToInt32] on an integral number. *)
Definition toInt32 (x : Z) : Z :=
  let m := x mod 2 ^ 32 in
  if 2 ^ 31 <=? m then m - 2 ^ 32 else m.

(** One step of the [reduce] in [loadBlocks]:
    [((hash << 5) - hash) + char.charCodeAt(0)], where [<<] works on
    [ToInt32(hash)] and yields a 32-bit result.  The values stay integral
    and, for names shorter than a million code units, below 2^53, so the
    double arithmetic is exact and [Z] models it. *)
Definition hash_step (hash : Z) (ch : jsstr) : Z :=
  toInt32 (toInt32 hash * 32) - hash + hd 0 ch.

(** [name.split] on the empty separator, then [reduce(step, 0)] *)
Definition name_hash (nm : jsstr) : Z :=
  fold_left hash_step (js_split [] nm) 0.

(** The local [mod] of [loadBlocks]: [(n % m + m) % m]. *)
Definition js_mod (n m : Z) : Z := Z.rem (Z.rem n m + m) m.

(** The color [loadBlocks] gives a block named [nm]. *)
Definition block_color (nm : jsstr) : jsstr :=
  js "#" ++ pad_start_zero 6 (toString16 (js_mod (name_hash nm) 0xFFFFFF)).

(** The loop of [loadBlocks] from block number [blockID]; the boolean tells
    whether it stopped on the [TypeError] of [blockData.name.split] (a line
    without [";"]), the list is then the blocks pushed before. *)
Fixpoint blocks_loop (blockID : Z) (lines : list jsstr) : list BlockData * bool :=
  match lines with
  | [] => ([], false)
  | line :: rest =>
      if starts_with (js "#") line || bool_decide (trim line = []) then
        blocks_loop blockID rest
      else
        let bd := parseBlock line in
        match block_name bd with
        | None => ([], true)
        | Some nm =>
            let b := {| block_id := blockID; block_start := block_start bd;
                        block_end := block_end bd; block_name := Some nm;
                        color := block_color nm |} in
            let '(bs, raised) := blocks_loop (blockID + 1) rest in
            (b :: bs, raised)
        end
  end.

(** [UnicodeData.loadBlocks] once the file has been read: the new
    [this.blocks], and whether it threw. *)
Definition loadBlocks (fileContent : jsstr) : list BlockData * bool :=
  blocks_loop 0 (js_split [10] fileContent).

(** ** Lookups and the card formatter *)

(** [codePoint >= block.start && codePoint <= block.end]; a comparison with
    [NaN] is false. *)
Definition in_block (codePoint : Z) (b : BlockData) : bool :=
  match block_start b, block_end b with
  | Some s, Some e => (s <=? codePoint) && (codePoint <=? e)
  | _, _ => false
  end.

(** [UnicodeData.getBlock] *)
Definition getBlock (u : UnicodeData) (codePoint : Z) : option BlockData :=
  match blocks u with
  | [] => None
  | bs => find (in_block codePoint) bs
  end.

(** [UnicodeData.getCodePoint] *)
Definition getCodePoint (u : UnicodeData) (id : Z) : option CodePointData :=
  data u !! id.

(** [UnicodeData.getCJKReading] *)
Definition getCJKReading (u : UnicodeData) (id : Z) : list CJKReading :=
  match cjkData u !! id with
  | Some rs => rs
  | None => []
  end.

(** [v || d] for a string-or-undefined [v]: the empty string and
    [undefined] are falsy. *)
Definition js_or (v : option jsstr) (d : jsstr) : jsstr :=
  match v with
  | Some (c :: s) => c :: s
  | _ => d
  end.

(** [`${reading.field.slice(1)}: ${reading.text}`]; [Throw] when the field
    is [undefined]. *)
Definition reading_line (r : CJKReading) : js_result jsstr :=
  match field r with
  | None => Throw
  | Some f => Ret (slice f 1 (Z.of_nat (length f)) ++ js ": " ++ tmpl (text r))
  end.

Fixpoint reading_lines (rs : list CJKReading) : js_result (list jsstr) :=
  match rs with
  | [] => Ret []
  | r :: rs' =>
      match reading_line r, reading_lines rs' with
      | Ret l, Ret ls => Ret (l :: ls)
      | _, _ => Throw
      end
  end.

(** [UnicodeData.getCardData]; [Ret None] is the [null] result. *)
Definition getCardData (u : UnicodeData) (id : Z) : js_result (option CardData) :=
  match getCodePoint u id with
  | None => Ret None
  | Some cp =>
      let cjkReadings := getCJKReading u id in
      let block := getBlock u id in
      let bname := js_or (block ≫= block_name) (js "Unknown") in
      match reading_lines cjkReadings with
      | Throw => Throw
      | Ret ls =>
          let description :=
            js "Name: " ++ tmpl (name cp) ++ [10] ++
            js "Block: " ++ bname ++ [10] ++ js_join [10] ls in
          Ret (Some {| card_id := id; card_name := name cp;
                       description := description;
                       char := fromCharCode id;
                       blockName := js_or (block ≫= block_name) [];
                       blockColor := js_or (color <$> block) (js "#ffffff") |})
      end
  end.

(** ** The weighted pool ([Pool]) *)

Record PoolItem := mkPoolItem {
  item_id : Z;
  weight : Q
}.

(** The [for (const item of items)] loop of one draw, with the position
    [pos] of the current item: [Some (pos, item)] when it breaks on [item]. *)
Fixpoint scan (items : list PoolItem) (randomValue : Q) (pos : nat)
  : option (nat * PoolItem) :=
  match items with
  | [] => None
  | item :: rest =>
      if Qlt_le_dec randomValue (weight item) then Some (pos, item)
      else scan rest (randomValue - weight item)%Q (S pos)
  end.

(** The item one draw pushes, if any. *)
Definition pick (items : list PoolItem) (randomValue : Q) : option PoolItem :=
  snd <$> scan items randomValue 0.

(** [items.reduce((sum, item) => sum + item.weight, 0)] *)
Definition totalWeight (items : list PoolItem) : Q :=
  (fold_left (fun sum item => sum + weight item) items 0)%Q.

Definition opt_list {A} (o : option A) : list A :=
  match o with
  | Some x => [x]
  | None => []
  end.

(** [Pool.draw(amount)]; [rand i] is the value of [Math.random()] in the
    [i]-th iteration.  The arithmetic here is exact; [draw_f] below rounds
    as JavaScript's doubles do. *)
Definition draw (items : list PoolItem) (amount : Z) (rand : nat -> Q)
  : list PoolItem :=
  if (length items =? 0)%nat || (amount <=? 0) then [] else
  let total := totalWeight items in
  flat_map (fun i => opt_list (pick items (rand i * total)%Q))
    (seq 0 (Z.to_nat amount)).


(** ** The BMP pool of [src/lib/unicode.ts] *)

Record Pool := mkPool {
  items : list PoolItem;
  unicodeData : UnicodeData;
  unicodeDataInitialized : bool
}.

(** [new Pool(unicodeDataParam)] (also [new UnicodeBMPPool(...)]), with
    [moduleData] the module-level [unicodeData] variable. *)
Definition new_pool (unicodeDataParam moduleData : option UnicodeData) : Pool :=
  match unicodeDataParam with
  | Some u => {| items := []; unicodeData := u; unicodeDataInitialized := true |}
  | None =>
      match moduleData with
      | Some u => {| items := []; unicodeData := u; unicodeDataInitialized := true |}
      | None => {| items := []; unicodeData := emptyUnicodeData;
                   unicodeDataInitialized := false |}
      end
  end.

(** The items the seeding loop of [initialize] adds, in order. *)
Definition bmp_seed (u : UnicodeData) : list PoolItem :=
  flat_map (fun id => match getCodePoint u id with
                      | Some _ => [{| item_id := id; weight := 1 |}]
                      | None => []
                      end)
    (zrange 0 65535).

(** [UnicodeBMPPool.initialize] of [src/lib/unicode.ts]. *)
Definition initialize (p : Pool) : Pool :=
  {| items := items p ++ bmp_seed (unicodeData p);
     unicodeData := unicodeData p;
     unicodeDataInitialized := unicodeDataInitialized p |}.

(** ** The BMP pool of the earlier variant [src/unnamed/part_000] *)

Module V0.

Record PoolItem := mkPoolItem {
  item_id : Z;
  item_name : option jsstr;
  item_description : jsstr;
  item_char : jsstr;
  weight : Q
}.

Record UnicodeBMPPool := mkPool {
  items : list PoolItem;
  unicodeData : UnicodeData;
  unicodeDataInitialized : bool
}.

(** [new UnicodeBMPPool(unicodeDataParam)] *)
Definition new_pool (unicodeDataParam moduleData : option UnicodeData)
  : UnicodeBMPPool :=
  match unicodeDataParam with
  | Some u => {| items := []; unicodeData := u; unicodeDataInitialized := true |}
  | None =>
      match moduleData with
      | Some u => {| items := []; unicodeData := u; unicodeDataInitialized := true |}
      | None => {| items := []; unicodeData := emptyUnicodeData;
                   unicodeDataInitialized := false |}
      end
  end.

Definition bmp_seed (u : UnicodeData) : list PoolItem :=
  flat_map (fun id => match getCodePoint u id with
                      | Some cp => [{| item_id := id; item_name := name cp;
                                       item_description := [];
                                       item_char := fromCharCode id;
                                       weight := 1 |}]
                      | None => []
                      end)
    (zrange 0 65535).

(** [UnicodeBMPPool.initialize], given the content of UnicodeData.txt; the
    boolean tells whether the awaited [addUnicodeData] threw. *)
Definition initialize (fileContent : jsstr) (p : UnicodeBMPPool)
  : UnicodeBMPPool * bool :=
  let '(u, raised) :=
    if unicodeDataInitialized p then (unicodeData p, false)
    else addUnicodeData 0 65535 fileContent (unicodeData p) in
  if raised then
    ({| items := items p; unicodeData := u; unicodeDataInitialized := false |}, true)
  else
    ({| items := items p ++ bmp_seed u; unicodeData := u;
        unicodeDataInitialized := true |}, false).

End V0.


(** ** JavaScript numbers (IEEE 754 binary64) *)

(** A JavaScript number: a finite double, given by its exact value, an
    infinity ([Inf true] is [-Infinity]), or [NaN].  Zeros carry no sign:
    no result below depends on it. *)
Inductive double :=
| Fin (q : Q)
| Inf (neg : bool)
| NaN.

(** The integer nearest to [n / d] ([n >= 0], [d > 0]), ties to even. *)
Definition round_half_even (n d : Z) : Z :=
  let q := n / d in
  match Z.compare (2 * (n mod d)) d with
  | Lt => q
  | Gt => q + 1
  | Eq => if Z.even q then q else q + 1
  end.

(** [(N, D)] with [N / D = (n / d) / 2^e]. *)
Definition scale (n d e : Z) : Z * Z :=
  if 0 <=? e then (n, d * 2 ^ e) else (n * 2 ^ (- e), d).

(** Rounding of the positive rational [n / d] to binary64, round to
    nearest, ties to even: 53 significant bits, quantum at least
    [2^-1074] (subnormals); [None] when it overflows to infinity. *)
Definition round_pos (n d : Z) : option Q :=
  let e0 := Z.log2 n - Z.log2 d in
  let E := let '(N, D) := scale n d e0 in if D <=? N then e0 else e0 - 1 in
  let e := Z.max (E - 52) (-1074) in
  let m := let '(N, D) := scale n d e in round_half_even N D in
  if 0 <=? e then
    if 2 ^ 1024 <=? m * 2 ^ e then None else Some (inject_Z (m * 2 ^ e))
  else Some (m # Z.to_pos (2 ^ (- e))).

(** The double nearest to an exact value: the result of every arithmetic
    operation and of a numeric literal. *)
Definition fl (x : Q) : double :=
  match Qnum x with
  | Z0 => Fin 0
  | Zpos n => match round_pos (Zpos n) (Zpos (Qden x)) with
              | Some q => Fin q
              | None => Inf false
              end
  | Zneg n => match round_pos (Zpos n) (Zpos (Qden x)) with
              | Some q => Fin (- q)
              | None => Inf true
              end
  end.

(** [x] is a double: rounding leaves it as it is. *)
Definition is_double (x : Q) : bool :=
  match fl x with
  | Fin y => Qeq_bool x y
  | _ => false
  end.

(** The value of a numeric literal. *)
Definition num_literal (x : Q) : Q :=
  match fl x with
  | Fin y => y
  | _ => 0
  end.

(** [x + y] *)
Definition dadd (x y : double) : double :=
  match x, y with
  | Fin a, Fin b => fl (a + b)
  | NaN, _ | _, NaN => NaN
  | Inf s, Inf t => if Bool.eqb s t then Inf s else NaN
  | Inf s, Fin _ => Inf s
  | Fin _, Inf t => Inf t
  end.

Definition dneg (x : double) : double :=
  match x with
  | Fin a => Fin (- a)
  | Inf s => Inf (negb s)
  | NaN => NaN
  end.

(** [x - y] *)
Definition dsub (x y : double) : double := dadd x (dneg y).

Definition qneg (a : Q) : bool := negb (Qle_bool 0 a).

(** [x * y] *)
Definition dmul (x y : double) : double :=
  match x, y with
  | Fin a, Fin b => fl (a * b)
  | NaN, _ | _, NaN => NaN
  | Inf s, Inf t => Inf (xorb s t)
  | Inf s, Fin b | Fin b, Inf s =>
      if Qeq_bool b 0 then NaN else Inf (xorb s (qneg b))
  end.

(** [x < y] *)
Definition dlt (x y : double) : bool :=
  match x, y with
  | NaN, _ | _, NaN => false
  | Fin a, Fin b => negb (Qle_bool b a)
  | Inf true, Inf true => false
  | Inf true, _ => true
  | _, Inf true => false
  | Inf false, _ => false
  | Fin _, Inf false => true
  end.

(** ** [Pool.draw] in doubles *)

(** The [for (const item of this.items)] loop of one draw, with
    [randomValue -= item.weight] rounded; [weight item] is the value of
    the double [item.weight]. *)
Fixpoint scan_f (items : list PoolItem) (randomValue : double) : option PoolItem :=
  match items with
  | [] => None
  | item :: rest =>
      if dlt randomValue (Fin (weight item)) then Some item
      else scan_f rest (dsub randomValue (Fin (weight item)))
  end.

(** [this.items.reduce((sum, item) => sum + item.weight, 0)] in doubles. *)
Definition totalWeight_f (items : list PoolItem) : double :=
  fold_left (fun sum item => dadd sum (Fin (weight item))) items (Fin 0).

(** [Pool.draw(amount)] with the arithmetic of doubles; [rand i] is the
    value of [Math.random()] in the [i]-th iteration. *)
Definition draw_f (items : list PoolItem) (amount : Z) (rand : nat -> Q)
  : list PoolItem :=
  if (length items =? 0)%nat || (amount <=? 0) then [] else
  let total := totalWeight_f items in
  flat_map (fun i => opt_list (scan_f items (dmul (Fin (rand i)) total)))
    (seq 0 (Z.to_nat amount)).

(** The selection as the spec words it: scan the items in order,
    accumulating their weights (in doubles), and select the first item
    whose cumulative weight exceeds the random value. *)
Fixpoint spec_select_cumulative (items : list PoolItem) (cum r : double)
  : option PoolItem :=
  match items with
  | [] => None
  | item :: rest =>
      let cum' := dadd cum (Fin (weight item)) in
      if dlt r cum' then Some item else spec_select_cumulative rest cum' r
  end.

(** ** The romanization tables as the spec lists them *)

Definition spec_initials : list jsstr :=
  map js ["g"; "gg"; "n"; "d"; "dd"; "r"; "m"; "b"; "bb"; "s"; "ss"; EmptyString;
          "j"; "jj"; "ch"; "k"; "t"; "p"; "h"]%string.

Definition spec_vowels : list jsstr :=
  map js ["a"; "ae"; "ya"; "yae"; "eo"; "e"; "yeo"; "ye"; "o"; "wa"; "wae";
          "oe"; "yo"; "u"; "weo"; "we"; "wi"; "yu"; "eu"; "ui"; "i"]%string.

Definition spec_finals : list jsstr :=
  map js [EmptyString; "g"; "gg"; "gs"; "n"; "nj"; "nh"; "d"; "l"; "lg"; "lm"; "lb";
          "ls"; "lt"; "lp"; "lh"; "m"; "b"; "bs"; "s"; "ss"; "ng"; "j"; "ch";
          "k"; "t"; "p"; "h"]%string.

(** The syllable name the spec's decomposition gives. *)
Definition spec_hangul_name (id : Z) : jsstr :=
  let order := id - 0xAC00 in
  nth (Z.to_nat (order / 588)) spec_initials [] ++
  nth (Z.to_nat ((order mod 588) / 28)) spec_vowels [] ++
  nth (Z.to_nat (order mod 28)) spec_finals [].

(** The color the spec describes: the polynomial hash [hash*31 + charCode]
    over unbounded integers, floor-mod 0xFFFFFF, zero-padded hex. *)
Definition spec_poly_hash (nm : jsstr) : Z :=
  fold_left (fun hash c => hash * 31 + c) nm 0.

Definition spec_block_color (nm : jsstr) : jsstr :=
  js "#" ++ pad_start_zero 6 (toString16 (spec_poly_hash nm mod 0xFFFFFF)).

(** ** Re-serialization of a parsed code-point line (spec section 8) *)

(** The fourteen string fields of a record, in file order. *)
Definition fields_of (c : CodePointData) : list (option jsstr) :=
  [name c; general_category c; canonical_combining_class c; bidi_class c;
   decomposition_type c; decomposition_mapping c; numeric_type c;
   numeric_value c; bidi_mirrored c; unicode_1_name c; iso_comment c;
   simple_uppercase_mapping c; simple_lowercase_mapping c;
   simple_titlecase_mapping c].

(** The id back in hexadecimal, the other fields as stored, joined by
    [";"]. *)
Definition serialize (c : CodePointData) : jsstr :=
  js_join (js ";")
    ((match cp_id c with Some k => toString16 k | None => js "NaN" end)
     :: map tmpl (fields_of c)).

(** ** The CJK reading loader ([UnicodeData.loadCJKData]) *)

(** [this.cjkData] during the loop: an object keyed by [String(id)]; the
    numeric keys are [cjk_num], the key ["NaN"] (lines whose id does not
    parse) is [cjk_nan]. *)
Record CJKState := mkCJKState {
  cjk_num : gmap Z (list CJKReading);
  cjk_nan : option (list CJKReading)
}.

(** [this.cjkData[id]], [undefined] when [!(id in this.cjkData)]. *)
Definition cjk_get (st : CJKState) (id : option Z) : option (list CJKReading) :=
  match id with
  | Some k => cjk_num st !! k
  | None => cjk_nan st
  end.

(** [this.cjkData[id] = v] *)
Definition cjk_set (st : CJKState) (id : option Z) (v : list CJKReading) : CJKState :=
  match id with
  | Some k => {| cjk_num := <[k := v]> (cjk_num st); cjk_nan := cjk_nan st |}
  | None => {| cjk_num := cjk_num st; cjk_nan := Some v |}
  end.

(** The lines [loadBlocks] and [loadCJKData] skip. *)
Definition skipped_line (line : jsstr) : bool :=
  starts_with (js "#") line || bool_decide (trim line = []).

(** One iteration of the loop of [loadCJKData]. *)
Definition cjk_step (st : CJKState) (line : jsstr) : CJKState :=
  if skipped_line line then st else
  let '(id, reading) := parseCJKReading line in
  let st1 := match cjk_get st id with
             | Some _ => st
             | None => cjk_set st id []
             end in
  match cjk_get st1 id with
  | Some rs => cjk_set st1 id (rs ++ [reading])
  | None => st1
  end.

(** [UnicodeData.loadCJKData] once the file has been read: [this.cjkData]
    is reset, then filled; only its numeric keys can be read back through
    [getCJKReading]. *)
Definition loadCJKData (fileContent : jsstr) (u : UnicodeData) : UnicodeData :=
  let st := fold_left cjk_step (js_split [10] fileContent)
              {| cjk_num := ∅; cjk_nan := None |} in
  {| data := data u; blocks := blocks u; cjkData := cjk_num st |}.

(** ** [Pool.addItem] and [Pool.drawCard] *)

(** [Pool.addItem(item)] *)
Definition addItem (p : Pool) (item : PoolItem) : Pool :=
  {| items := items p ++ [item]; unicodeData := unicodeData p;
     unicodeDataInitialized := unicodeDataInitialized p |}.

(** [arr.map(f)] with an [f] that may throw: the first throw ends it. *)
Fixpoint map_js {A B} (f : A -> js_result B) (l : list A) : js_result (list B) :=
  match l with
  | [] => Ret []
  | x :: l' =>
      match f x with
      | Throw => Throw
      | Ret y => match map_js f l' with
                 | Throw => Throw
                 | Ret ys => Ret (y :: ys)
                 end
      end
  end.

(** [Pool.drawCard(amount)]; the cast [as CardData] changes nothing at run
    time, so a [null] card is kept. *)
Definition drawCard (p : Pool) (amount : Z) (rand : nat -> Q)
  : js_result (list (option CardData)) :=
  map_js (fun item => getCardData (unicodeData p) (item_id item))
    (draw (items p) amount rand).

(** The readings a file gives the id [k], in file order. *)
Definition cjk_readings_of (k : Z) (lines : list jsstr) : list CJKReading :=
  flat_map (fun line =>
    if skipped_line line then [] else
    let '(id, reading) := parseCJKReading line in
    if decide (id = Some k) then [reading] else []) lines.

(** ** Examples *)

(** The two-line file of the spec's range example. *)
Definition cjk_example_file : jsstr :=
  js "4E00;<CJK Ideograph, First>;Lo;0;L;;;;;N;;;;;" ++ [10] ++
  js "4E02;<CJK Ideograph, Last>;Lo;0;L;;;;;N;;;;;" ++ [10].

(** [this.data] after loading [cjk_example_file] into an empty object. *)
Definition cjk_example_data : gmap Z CodePointData :=
  data (fst (addUnicodeData 0 65535 cjk_example_file emptyUnicodeData)).

(** A line of UnicodeData.txt, and the same line with field 0 written
    without its leading zeros. *)
Definition latin_a_line : jsstr :=
  js "0041;LATIN CAPITAL LETTER A;Lu;0;L;;;;;N;;;;0061;".

Definition latin_a_short_line : jsstr :=
  js "41;LATIN CAPITAL LETTER A;Lu;0;L;;;;;N;;;;0061;".

(** A CJK range whose first line lies below the scan bound [[1, 0xFFFF]]. *)
Definition cut_range_file : jsstr :=
  js "0000;<CJK Ideograph, First>;Lo;0;L;;;;;N;;;;;" ++ [10] ++
  js "0002;<CJK Ideograph, Last>;Lo;0;L;;;;;N;;;;;" ++ [10].

(** The first line of Blocks.txt, and a block line with an empty name. *)
Definition basic_latin_blocks : jsstr := js "0000..007F; Basic Latin" ++ [10].

Definition unnamed_block_file : jsstr := js "0000..007F;" ++ [10].

(** An index whose only block has an empty name. *)
Definition unnamed_block_index : UnicodeData :=
  {| data := <[0 := parseCodePoint (js "0000;<control>;Cc;0;BN;;;;;N;NULL;;;;")]> ∅;
     blocks := fst (loadBlocks unnamed_block_file);
     cjkData := ∅ |}.

(** The [First] line of [cjk_example_file]. *)
Definition cjk_first_line : jsstr :=
  js "4E00;<CJK Ideograph, First>;Lo;0;L;;;;;N;;;;;".

(** Fields 1 to 14 of [latin_a_line]. *)
Definition latin_a_fields : list jsstr :=
  [js "LATIN CAPITAL LETTER A"; js "Lu"; js "0"; js "L"; []; []; []; [];
   js "N"; []; []; []; js "0061"; []].

(** The block [loadBlocks basic_latin_blocks] produces. *)
Definition basic_latin_block : BlockData :=
  {| block_id := 0; block_start := Some 0; block_end := Some 0x7F;
     block_name := Some (js " Basic Latin"); color := js "#18b301" |}.

(** Two small pools, the second with an item of weight 0. *)
Definition two_items : list PoolItem :=
  [{| item_id := 1; weight := 1%Q |}; {| item_id := 2; weight := 3%Q |}].

Definition zero_weight_items : list PoolItem :=
  [{| item_id := 1; weight := 0%Q |}; {| item_id := 2; weight := 1%Q |}].

(** Three items with the weights [0.1], [0.2] and [0.3]. *)
Definition tenths_items : list PoolItem :=
  [{| item_id := 1; weight := num_literal (1#10) |};
   {| item_id := 2; weight := num_literal (2#10) |};
   {| item_id := 3; weight := num_literal (3#10) |}].

(** The largest value V8's [Math.random()] returns, [1 - 2^-52]. *)
Definition max_random : Q := 1 - (1 # (2 ^ 52)).

(** The pool [two_items] as a [Pool] object. *)
Definition two_items_pool : Pool :=
  {| items := two_items; unicodeData := emptyUnicodeData; unicodeDataInitialized := true |}.


(** ** Lemmas on range expansion *)

Lemma fold_insert_lookup (f : Z -> CodePointData) (l : list Z)
  (d : gmap Z CodePointData) (i : Z) :
  fold_left (fun d id => <[id := f id]> d) l d !! i =
  if in_dec Z.eq_dec i l then Some (f i) else d !! i.
Proof.
  revert d. induction l as [|x l IH]; intros d; simpl; [reflexivity|].
  rewrite IH.
  destruct (in_dec Z.eq_dec i l) as [Hin|Hin];
    destruct (Z.eq_dec x i) as [->|Hne]; try reflexivity.
  - rewrite lookup_insert_eq. reflexivity.
  - rewrite lookup_insert_ne by exact Hne. reflexivity.
Qed.

Lemma in_zrange_go (n : nat) (a i : Z) :
  In i (zrange_go n a) <-> a <= i < a + Z.of_nat n.
Proof.
  revert a. induction n as [|n IH]; intros a; simpl; [lia|].
  rewrite IH. lia.
Qed.

Lemma in_zrange (a b i : Z) : In i (zrange a b) <-> a <= i <= b.
Proof.
  unfold zrange. rewrite in_zrange_go. lia.
Qed.

Lemma addRange_lookup (a b : Z) (rangeName : jsstr) (cp : CodePointData)
  (d : gmap Z CodePointData) (i : Z) :
  addRange a b rangeName cp d !! i =
  if decide (a <= i <= b) then Some (range_record rangeName cp i) else d !! i.
Proof.
  unfold addRange. rewrite fold_insert_lookup.
  destruct (in_dec Z.eq_dec i (zrange a b)) as [H|H];
    rewrite in_zrange in H;
    destruct (decide (a <= i <= b)); tauto.
Qed.

(** Names ending in ["First>"] or ["Last>"] end in [">"], and no name ends
    in both. *)
Lemma rev_first : rev (js "First>") = [62; 116; 115; 114; 105; 70].
Proof. reflexivity. Qed.

Lemma rev_last : rev (js "Last>") = [62; 116; 115; 97; 76].
Proof. reflexivity. Qed.

Lemma rev_gt : rev (js ">") = [62].
Proof. reflexivity. Qed.

Lemma ends_with_gt_first (n : jsstr) :
  ends_with (js "First>") n = true -> ends_with (js ">") n = true.
Proof.
  unfold ends_with. rewrite rev_first, rev_gt.
  destruct (rev n) as [|c r]; cbn [starts_with]; [discriminate|].
  rewrite !andb_true_iff. tauto.
Qed.

Lemma ends_with_gt_last (n : jsstr) :
  ends_with (js "Last>") n = true -> ends_with (js ">") n = true.
Proof.
  unfold ends_with. rewrite rev_last, rev_gt.
  destruct (rev n) as [|c r]; cbn [starts_with]; [discriminate|].
  rewrite !andb_true_iff. tauto.
Qed.

Lemma ends_with_last_not_first (n : jsstr) :
  ends_with (js "Last>") n = true -> ends_with (js "First>") n = false.
Proof.
  unfold ends_with. rewrite rev_first, rev_last. intros H.
  destruct (rev n) as [|c1 [|c2 [|c3 [|c4 r]]]]; cbn [starts_with] in *;
    rewrite ?andb_false_r in H; try discriminate.
  destruct (Z.eqb_spec 97 c4) as [<-|Hne].
  - rewrite !andb_false_r. reflexivity.
  - cbn [andb] in H.
    rewrite !andb_false_r in H. discriminate.
Qed.

(** ** Claim C1 *)

(** C1 (range expansion).  A line in the scan bound whose name ends with
    ["First>"] only sets the pending range start [rangeFirst] to its id and
    stores nothing; a line whose name ends with ["Last>"] and whose tag
    [name.slice(1, -7)] contains ["CJK"] or ["Hangul"] stores a record at
    every id of [[rangeFirst, id]] and changes nothing else.  Loading the
    spec's two-line [<CJK Ideograph, First>] / [<CJK Ideograph, Last>] file
    (0x4E00 .. 0x4E02) into an empty index gives exactly the ids 0x4E00,
    0x4E01 and 0x4E02, named ["CJK IDEOGRAPH 4E00"] etc. *)
Theorem range_expansion (rangeStart rangeEnd : Z) (st : LoaderState)
  (line : jsstr) (k : Z) (n : jsstr)
  (Hcomment : starts_with (js "#") line = false)
  (Hid : cp_id (parseCodePoint line) = Some k)
  (Hbound : rangeStart <= k <= rangeEnd)
  (Hname : name (parseCodePoint line) = Some n) :
  (ends_with (js "First>") n = true ->
   loader_step rangeStart rangeEnd st line =
     Ret {| ld_data := ld_data st; rangeFirst := k |}) /\
  (ends_with (js "Last>") n = true ->
   includes (js "CJK") (slice n 1 (-7)) || includes (js "Hangul") (slice n 1 (-7)) = true ->
   exists st',
     loader_step rangeStart rangeEnd st line = Ret st' /\
     rangeFirst st' = rangeFirst st /\
     forall i, ld_data st' !! i =
       if decide (rangeFirst st <= i <= k)
       then Some (range_record (slice n 1 (-7)) (parseCodePoint line) i)
       else ld_data st !! i) /\
  dom cjk_example_data = ({[0x4E00; 0x4E01; 0x4E02]} : gset Z) /\
  (name <$> cjk_example_data !! 0x4E00) = Some (Some (js "CJK IDEOGRAPH 4E00")) /\
  (name <$> cjk_example_data !! 0x4E01) = Some (Some (js "CJK IDEOGRAPH 4E01")) /\
  (name <$> cjk_example_data !! 0x4E02) = Some (Some (js "CJK IDEOGRAPH 4E02")).
Proof.
  assert (Hob : ((k <? rangeStart) || (rangeEnd <? k)) = false)
    by (apply orb_false_iff; split; apply Z.ltb_ge; lia).
  split; [|split; [|split; [|split; [|split]]]].
  - intros Hf. unfold loader_step.
    rewrite Hcomment, Hid, Hob, Hname, (ends_with_gt_first n Hf), Hf.
    reflexivity.
  - intros Hl Htag. unfold loader_step.
    rewrite Hcomment, Hid, Hob, Hname, (ends_with_gt_last n Hl),
      (ends_with_last_not_first n Hl), Hl, Htag.
    eexists. split; [reflexivity|]. split; [reflexivity|].
    intros i. simpl. apply addRange_lookup.
  - vm_compute. reflexivity.
  - vm_compute. reflexivity.
  - vm_compute. reflexivity.
  - vm_compute. reflexivity.
Qed.

Lemma range_expansion_witness :
  starts_with (js "#") cjk_first_line = false /\
  cp_id (parseCodePoint cjk_first_line) = Some 0x4E00 /\
  0 <= 0x4E00 <= 65535 /\
  name (parseCodePoint cjk_first_line) = Some (js "<CJK Ideograph, First>") /\
  loader_step 0 65535 {| ld_data := ∅; rangeFirst := 0 |} cjk_first_line =
    Ret {| ld_data := ∅; rangeFirst := 0x4E00 |}.
Proof.
  assert (H1 : starts_with (js "#") cjk_first_line = false) by (vm_compute; reflexivity).
  assert (H2 : cp_id (parseCodePoint cjk_first_line) = Some 0x4E00) by (vm_compute; reflexivity).
  assert (H3 : 0 <= 0x4E00 <= 65535) by lia.
  assert (H4 : name (parseCodePoint cjk_first_line) = Some (js "<CJK Ideograph, First>"))
    by (vm_compute; reflexivity).
  refine (conj H1 (conj H2 (conj H3 (conj H4 _)))).
  apply (proj1 (range_expansion 0 65535 {| ld_data := ∅; rangeFirst := 0 |}
                  cjk_first_line 0x4E00 _ H1 H2 H3 H4)).
  vm_compute. reflexivity.
Defined.

(** ** Claim C2 *)

Lemma arr_get_in (arr : list jsstr) (k : Z) :
  0 <= k < Z.of_nat (length arr) -> arr_get arr k = Some (nth (Z.to_nat k) arr []).
Proof.
  intros Hk. unfold arr_get.
  destruct (Z.ltb_spec k 0); [lia|].
  apply nth_error_nth'. lia.
Qed.

(** C2 (Hangul syllable naming).  For every id in [[0xAC00, 0xD7A3]],
    [getHangulSyllableName id] is the concatenation of the entries of the
    spec's 19 initials, 21 vowels and 28 finals tables (the first final is
    empty) at [(id - 0xAC00) / 588], [((id - 0xAC00) mod 588) / 28] and
    [(id - 0xAC00) mod 28]; in particular 0xAC00 is named ["ga"] and 0xD7A3
    ["hih"]. *)
Theorem hangul_syllable_name (id : Z) (Hid : 0xAC00 <= id <= 0xD7A3) :
  getHangulSyllableName id = spec_hangul_name id /\
  length spec_initials = 19%nat /\ length spec_vowels = 21%nat /\
  length spec_finals = 28%nat /\ nth 0 spec_finals [] = [] /\
  getHangulSyllableName 0xAC00 = js "ga" /\
  getHangulSyllableName 0xD7A3 = js "hih".
Proof.
  split; [|repeat split; reflexivity].
  unfold getHangulSyllableName, spec_hangul_name.
  set (order := id - 0xAC00).
  assert (Ho : 0 <= order <= 11171) by (subst order; lia).
  rewrite !Z.rem_mod_nonneg by lia.
  assert (Hi : 0 <= order / 588 < 19).
  { split; [apply Z.div_pos; lia|]. apply Z.div_lt_upper_bound; lia. }
  assert (Hm : 0 <= order mod 588 < 588) by (apply Z.mod_pos_bound; lia).
  assert (Hv : 0 <= order mod 588 / 28 < 21).
  { split; [apply Z.div_pos; lia|]. apply Z.div_lt_upper_bound; lia. }
  assert (Hf : 0 <= order mod 28 < 28) by (apply Z.mod_pos_bound; lia).
  rewrite (arr_get_in initials) by (simpl; lia).
  rewrite (arr_get_in vowels) by (simpl; lia).
  rewrite (arr_get_in finals) by (simpl; lia).
  reflexivity.
Qed.

Lemma hangul_syllable_name_witness :
  0xAC00 <= 0xAC01 <= 0xD7A3 /\
  getHangulSyllableName 0xAC01 = spec_hangul_name 0xAC01.
Proof.
  assert (H : 0xAC00 <= 0xAC01 <= 0xD7A3) by lia.
  exact (conj H (proj1 (hangul_syllable_name 0xAC01 H))).
Defined.

(** ** Lemmas on the weighted draw *)

Section Draw.
Open Scope Q_scope.

Lemma fold_weight_acc (l : list PoolItem) (a : Q) :
  fold_left (fun sum item => sum + weight item) l a ==
  a + fold_left (fun sum item => sum + weight item) l 0.
Proof.
  revert a. induction l as [|x l IH]; intros a; simpl; [ring|].
  rewrite (IH (a + weight x)), (IH (0 + weight x)). ring.
Qed.

Lemma totalWeight_nil : totalWeight [] == 0.
Proof. reflexivity. Qed.

Lemma totalWeight_cons (x : PoolItem) (l : list PoolItem) :
  totalWeight (x :: l) == weight x + totalWeight l.
Proof.
  unfold totalWeight. simpl. rewrite fold_weight_acc. ring.
Qed.

(** Where the loop breaks, the item is the one at that position. *)
Lemma scan_position (l : list PoolItem) (r : Q) (p j : nat) (x : PoolItem) :
  scan l r p = Some (j, x) -> (p <= j)%nat /\ nth_error l (j - p) = Some x.
Proof.
  revert r p. induction l as [|y l IH]; intros r p H; simpl in H; [discriminate|].
  destruct (Qlt_le_dec r (weight y)).
  - injection H as <- <-. rewrite Nat.sub_diag. split; [lia|reflexivity].
  - apply IH in H as [Hle Hn]. split; [lia|].
    replace (j - p)%nat with (S (j - S p)) by lia. exact Hn.
Qed.

(** A value in [[0, totalWeight)] always selects an item. *)
Lemma scan_total (l : list PoolItem) (r : Q) (p : nat) :
  0 <= r -> r < totalWeight l -> exists j x, scan l r p = Some (j, x).
Proof.
  revert r p. induction l as [|y l IH]; intros r p H0 H1.
  - rewrite totalWeight_nil in H1. lra.
  - rewrite totalWeight_cons in H1. simpl.
    destruct (Qlt_le_dec r (weight y)); [eauto|].
    apply IH; lra.
Qed.

(** While the loop runs, the remaining value stays non-negative, so an item
    of weight 0 is never where it breaks. *)
Lemma scan_nonzero (l : list PoolItem) (r : Q) (p j : nat) (x : PoolItem) :
  0 <= r -> scan l r p = Some (j, x) -> ~ weight x == 0.
Proof.
  revert r p. induction l as [|y l IH]; intros r p H0 H; simpl in H; [discriminate|].
  destruct (Qlt_le_dec r (weight y)).
  - injection H as _ <-. lra.
  - apply (IH (r - weight y) (S p)); [lra|exact H].
Qed.

End Draw.

Lemma flat_map_singletons {A B} (f : A -> list B) (g : A -> B) (l : list A) :
  (forall a, In a l -> f a = [g a]) -> flat_map f l = map g l.
Proof.
  induction l as [|a l IH]; intros H; simpl; [reflexivity|].
  rewrite (H a) by (left; reflexivity). simpl. f_equal.
  apply IH. intros b Hb. apply H. right. exact Hb.
Qed.

Lemma draw_unfold (items : list PoolItem) (amount : Z) (rand : nat -> Q) :
  items <> [] -> 0 < amount ->
  draw items amount rand =
  flat_map (fun i => opt_list (pick items (rand i * totalWeight items)%Q))
    (seq 0 (Z.to_nat amount)).
Proof.
  intros Hne Ha. unfold draw.
  destruct items as [|x l]; [congruence|].
  replace (amount <=? 0) with false by (symmetry; apply Z.leb_gt; lia).
  reflexivity.
Qed.

(** ** Claim C3 *)

(** C3 (weighted draw), a code bug.  With the double arithmetic of
    [Pool.draw], the weights [0.1], [0.2], [0.3] (total
    [0.6000000000000001]) and [Math.random()] returning [1 - 2^-52], the
    random value is [0.6], inside [[0, totalWeight)]; the loop leaves
    [0.5], then [0.3], and [0.3 < 0.3] fails, so [draw(1)] returns no item.
    Accumulating the weights, as the spec describes, selects the third
    item for the same value. *)
Theorem draw_rounding_miss :
  Forall (fun it => is_double (weight it) = true) tenths_items /\
  is_double max_random = true /\ (0 <= max_random < 1)%Q /\
  dlt (dmul (Fin max_random) (totalWeight_f tenths_items)) (Fin 0) = false /\
  dlt (dmul (Fin max_random) (totalWeight_f tenths_items)) (totalWeight_f tenths_items) = true /\
  draw_f tenths_items 1 (fun _ => max_random) = [] /\
  spec_select_cumulative tenths_items (Fin 0) (dmul (Fin max_random) (totalWeight_f tenths_items))
    = Some {| item_id := 3; weight := num_literal (3#10) |}.
Proof.
  split; [repeat constructor; vm_compute; reflexivity|].
  split; [vm_compute; reflexivity|].
  split; [unfold max_random; split; vm_compute; [discriminate|reflexivity]|].
  vm_compute. repeat split; reflexivity.
Qed.

(** ** Claim C5 *)

(** C5 (empty draws).  [draw] returns the empty list, without error, when
    [amount <= 0] or when the pool has no item. *)
Theorem draw_empty (items : list PoolItem) (amount : Z) (rand : nat -> Q)
  (H : amount <= 0 \/ items = []) :
  draw items amount rand = [].
Proof.
  unfold draw. destruct H as [H | ->].
  - replace (amount <=? 0) with true by (symmetry; apply Z.leb_le; exact H).
    rewrite orb_true_r. reflexivity.
  - reflexivity.
Qed.

Lemma draw_empty_witness :
  (0 <= 0 \/ two_items = []) /\ draw two_items 0 (fun _ => 1#2)%Q = [].
Proof.
  assert (H : 0 <= 0 \/ two_items = []) by (left; lia).
  exact (conj H (draw_empty two_items 0 (fun _ => 1#2)%Q H)).
Defined.

(** ** Claim C10 *)

(** C10 (zero weights are never drawn).  When every random value
    [rand k * totalWeight] is non-negative (as it is in [[0, totalWeight)]),
    no item [draw] returns has weight 0: the value left after subtracting
    the skipped weights stays non-negative, and [r < 0] fails.  Neither
    non-negative weights nor the upper bound is needed. *)
Theorem draw_never_zero_weight (items : list PoolItem) (amount : Z) (rand : nat -> Q)
  (Hr : forall k, (k < Z.to_nat amount)%nat -> (0 <= rand k * totalWeight items)%Q) :
  forall x, In x (draw items amount rand) -> ~ (weight x == 0)%Q.
Proof.
  intros x Hx. unfold draw in Hx.
  destruct ((length items =? 0)%nat || (amount <=? 0)); [destruct Hx|].
  apply in_flat_map in Hx as (k & Hk & Hx). apply in_seq in Hk.
  unfold pick in Hx. destruct (scan items (rand k * totalWeight items)%Q 0) as [[j y]|] eqn:Hs;
    simpl in Hx; [|destruct Hx].
  destruct Hx as [<-|[]].
  exact (scan_nonzero items _ 0 j y (Hr k (proj2 Hk)) Hs).
Qed.

Lemma draw_never_zero_weight_witness :
  (forall k, (k < Z.to_nat 3)%nat -> (0 <= (1#2) * totalWeight zero_weight_items)%Q) /\
  (forall x, In x (draw zero_weight_items 3 (fun _ => 1#2)%Q) -> ~ (weight x == 0)%Q).
Proof.
  assert (H : forall k, (k < Z.to_nat 3)%nat -> (0 <= (1#2) * totalWeight zero_weight_items)%Q).
  { intros _ _. vm_compute. discriminate. }
  exact (conj H (draw_never_zero_weight zero_weight_items 3 (fun _ => 1#2)%Q H)).
Defined.

(** ** Claim C6 *)

(** C6 (scan bound), at a failing input.  With the scan bound
    [[1, 0xFFFF]], the [First] line of a CJK range at id 0 is skipped by
    the bound check, so [rangeFirst] keeps its initial value 0; the [Last]
    line at id 2 is in bound and expands [[0, 2]]: id 0, outside the bound,
    is stored. *)
Theorem scan_bound_range_escape :
  let u := fst (addUnicodeData 1 0xFFFF cut_range_file emptyUnicodeData) in
  snd (addUnicodeData 1 0xFFFF cut_range_file emptyUnicodeData) = false /\
  dom (data u) = ({[0; 1; 2]} : gset Z) /\
  (cp_id <$> data u !! 0) = Some (Some 0).
Proof. vm_compute. repeat split; reflexivity. Qed.

(** ** Claim C7 *)

(** C7 (BMP pool seeding), at a failing input.  A [UnicodeBMPPool] of
    [src/lib/unicode.ts] built with no index supplied (and no module-level
    index) starts on an empty index with [unicodeDataInitialized = false],
    and its [initialize] never loads it: the pool stays empty, whatever
    UnicodeData.txt contains.  The earlier variant's [initialize] loads the
    file first and seeds one item per code point of the
    [cjk_example_file] index, which the same seeding loop gives for the
    loaded index. *)
Theorem bmp_pool_no_lazy_load :
  unicodeDataInitialized (new_pool None None) = false /\
  items (initialize (new_pool None None)) = [] /\
  map V0.item_id (V0.items (fst (V0.initialize cjk_example_file (V0.new_pool None None))))
    = [0x4E00; 0x4E01; 0x4E02] /\
  bmp_seed (fst (addUnicodeData 0 65535 cjk_example_file emptyUnicodeData)) =
    [{| item_id := 0x4E00; weight := 1 |}; {| item_id := 0x4E01; weight := 1 |};
     {| item_id := 0x4E02; weight := 1 |}].
Proof. vm_compute. repeat split; reflexivity. Qed.

(** ** Lemmas on block colors *)

Lemma js_mod_floor (n m : Z) : 0 < m -> js_mod n m = n mod m.
Proof.
  intros Hm. unfold js_mod.
  pose proof (Z.quot_rem' n m) as Hq.
  pose proof (Z.rem_bound_abs n m ltac:(lia)) as Hb.
  rewrite (Z.abs_eq m) in Hb by lia. apply Z.abs_lt in Hb.
  rewrite Z.rem_mod_nonneg by lia.
  replace (Z.rem n m + m) with (n + (1 - Z.quot n m) * m) by lia.
  apply Z.mod_add. lia.
Qed.

Lemma hex_go_length (fuel : nat) (k : nat) (n : Z) (acc : jsstr) :
  (1 <= k)%nat -> 0 <= n < 16 ^ Z.of_nat k ->
  (length (hex_go fuel n acc) <= k + length acc)%nat.
Proof.
  revert k n acc. induction fuel as [|f IH]; intros k n acc Hk Hn; simpl; [lia|].
  destruct (Z.ltb_spec n 16); simpl; [lia|].
  destruct k as [|[|k]]; [lia| |].
  - simpl in Hn. lia.
  - assert (H16 : 16 ^ Z.of_nat (S (S k)) = 16 * 16 ^ Z.of_nat (S k))
      by (rewrite !Nat2Z.inj_succ, Z.pow_succ_r by lia; lia).
    specialize (IH (S k) (n / 16) (hex_char (n mod 16) :: acc)).
    simpl in IH.
    assert (Hd : 0 <= n / 16 < 16 ^ Z.of_nat (S k)).
    { split; [apply Z.div_pos; lia|]. apply Z.div_lt_upper_bound; lia. }
    specialize (IH ltac:(lia) Hd). lia.
Qed.

Lemma toString16_length (v : Z) :
  0 <= v <= 0xFFFFFE -> (length (toString16 v) <= 6)%nat.
Proof.
  intros Hv. unfold toString16.
  destruct (Z.ltb_spec v 0); [lia|].
  pose proof (hex_go_length (S (Z.to_nat (Z.log2 v))) 6 v [] ltac:(lia)) as Hl.
  simpl in Hl. apply Hl. lia.
Qed.

Lemma blocks_loop_colors (lines : list jsstr) (blockID : Z) (b : BlockData) :
  In b (fst (blocks_loop blockID lines)) ->
  exists nm, block_name b = Some nm /\ color b = block_color nm.
Proof.
  revert blockID. induction lines as [|line rest IH]; intros blockID Hb;
    cbn [blocks_loop] in Hb.
  - destruct Hb.
  - destruct (starts_with (js "#") line || bool_decide (trim line = [])).
    + exact (IH _ Hb).
    + destruct (block_name (parseBlock line)) as [nm|]; [|destruct Hb].
      destruct (blocks_loop (blockID + 1) rest) as [bs raised] eqn:E.
      cbn [fst] in Hb. destruct Hb as [<-|Hb].
      * exists nm. split; reflexivity.
      * apply (IH (blockID + 1)). rewrite E. exact Hb.
Qed.

(** ** Claim C8 *)

(** C8 (block color), counterexample.  For the first line of Blocks.txt,
    [0000..007F; Basic Latin], the loader colors the block (named
    [" Basic Latin"]) [#18b301], while the unbounded polynomial hash
    [hash*31 + charCode] floor-mod 0xFFFFFF gives [#5cbd13]: JavaScript's
    [<<] truncates to 32 bits. *)
Lemma block_color_poly_counterexample :
  ~ (forall b, In b (fst (loadBlocks basic_latin_blocks)) ->
               color b = spec_block_color (tmpl (block_name b))).
Proof.
  intros H.
  specialize (H (hd (mkBlockData 0 None None None []) (fst (loadBlocks basic_latin_blocks)))).
  vm_compute in H. specialize (H (or_introl eq_refl)). discriminate H.
Qed.

(** C8 (block color), amended.  Every block the loader produces has a name
    [nm] and the color ["#"] followed by the zero-padded 6-digit hex
    rendering of [v], the floor-mod by 0xFFFFFF of the fold of
    [hash = ToInt32(ToInt32(hash) * 32) - hash + charCode] (JavaScript's
    [((hash << 5) - hash) + charCode]) from 0 over the code units of [nm];
    [v] lies in [[0, 0xFFFFFE]] and the color has 7 characters. *)
Theorem block_color_hash (fileContent : jsstr) (b : BlockData)
  (Hb : In b (fst (loadBlocks fileContent))) :
  exists nm v,
    block_name b = Some nm /\
    v = fold_left hash_step (js_split [] nm) 0 mod 0xFFFFFF /\
    color b = js "#" ++ pad_start_zero 6 (toString16 v) /\
    0 <= v <= 0xFFFFFE /\
    length (color b) = 7%nat.
Proof.
  destruct (blocks_loop_colors _ _ _ Hb) as [nm [Hn Hc]].
  exists nm, (name_hash nm mod 0xFFFFFF).
  assert (Hv : 0 <= name_hash nm mod 0xFFFFFF <= 0xFFFFFE)
    by (pose proof (Z.mod_pos_bound (name_hash nm) 0xFFFFFF ltac:(lia)); lia).
  assert (Hcol : color b = js "#" ++ pad_start_zero 6 (toString16 (name_hash nm mod 0xFFFFFF)))
    by (rewrite Hc; unfold block_color; rewrite js_mod_floor by lia; reflexivity).
  repeat split; try assumption; try reflexivity; try lia.
  rewrite Hcol. unfold pad_start_zero. simpl.
  rewrite length_app, repeat_length.
  pose proof (toString16_length _ Hv). lia.
Qed.

Lemma block_color_hash_witness :
  In basic_latin_block (fst (loadBlocks basic_latin_blocks)) /\
  exists nm v,
    block_name basic_latin_block = Some nm /\
    v = fold_left hash_step (js_split [] nm) 0 mod 0xFFFFFF /\
    color basic_latin_block = js "#" ++ pad_start_zero 6 (toString16 v) /\
    0 <= v <= 0xFFFFFE /\
    length (color basic_latin_block) = 7%nat.
Proof.
  assert (H : In basic_latin_block (fst (loadBlocks basic_latin_blocks)))
    by (vm_compute; left; reflexivity).
  exact (conj H (block_color_hash basic_latin_blocks basic_latin_block H)).
Defined.

(** ** Claim C4 *)

Lemma slice_from_one (f : jsstr) : slice f 1 (Z.of_nat (length f)) = drop 1 f.
Proof.
  destruct f as [|c f]; [reflexivity|].
  set (len := Z.of_nat (length (c :: f))).
  assert (Hlen : len = Z.of_nat (length f) + 1) by (subst len; simpl length; lia).
  assert (E1 : rel_index 1 len = 1)
    by (unfold rel_index; destruct (Z.ltb_spec 1 0); lia).
  assert (E2 : rel_index len len = len)
    by (unfold rel_index; destruct (Z.ltb_spec len 0); lia).
  unfold slice. fold len. rewrite E1, E2. clearbody len.
  replace (Z.to_nat 1) with 1%nat by reflexivity.
  apply take_ge. rewrite length_drop. simpl length. lia.
Qed.

Lemma reading_lines_pairs (prs : list (jsstr * jsstr)) :
  reading_lines (map (fun '(f, t) => {| field := Some f; text := Some t |}) prs) =
  Ret (map (fun '(f, t) => drop 1 f ++ js ": " ++ t) prs).
Proof.
  induction prs as [|[f t] prs IH]; [reflexivity|].
  simpl. rewrite IH. unfold reading_line. simpl. rewrite slice_from_one. reflexivity.
Qed.

Lemma getBlock_loaded (fileContent : jsstr) (u : UnicodeData) (id : Z) (b : BlockData) :
  blocks u = fst (loadBlocks fileContent) -> getBlock u id = Some b ->
  exists nm, block_name b = Some nm /\ color b = block_color nm.
Proof.
  intros Hbl Hg. unfold getBlock in Hg. rewrite Hbl in Hg.
  apply blocks_loop_colors with (lines := js_split [10] fileContent) (blockID := 0).
  destruct (fst (loadBlocks fileContent)) as [|b0 bs] eqn:E; [discriminate|].
  apply find_some in Hg as [Hin _]. unfold loadBlocks in E. rewrite E. exact Hin.
Qed.

(** C4 (card composition), counterexample.  A block read from the line
    [0000..007F;] has the empty name; for a code point in it, the Block line
    reads ["Unknown"] (JavaScript's [||] treats the empty string as
    absent), not the block's name. *)
Lemma card_block_line_counterexample :
  exists b c,
    getBlock unnamed_block_index 0 = Some b /\ block_name b = Some [] /\
    getCardData unnamed_block_index 0 = Ret (Some c) /\
    description c = js "Name: <control>" ++ [10] ++ js "Block: Unknown" ++ [10].
Proof.
  eexists. eexists. split; [vm_compute; reflexivity|].
  split; [reflexivity|]. split; [vm_compute; reflexivity|]. vm_compute. reflexivity.
Qed.

(** C4 (card composition), amended.  For an index whose blocks come from
    [loadBlocks] and whose CJK readings of [id] are (field tag, text) pairs
    [prs]: [getCardData id] is absent exactly when [getCodePoint id] is;
    otherwise its char is the single code unit [id mod 65536], its block
    color the containing block's color or ["#ffffff"] when no block contains
    [id], and its description is ["Name: <name>\n"], ["Block: <b>\n"] with
    [b] the block's name, or ["Unknown"] when no block contains [id] or the
    block's name is empty, and then one line per reading (tag without its
    first character, [": "], text) joined by ["\n"].  With zero readings the
    description is the Name and Block lines, each ending in ["\n"]. *)
Theorem card_data_composition (fileContent : jsstr) (u : UnicodeData) (id : Z)
  (prs : list (jsstr * jsstr))
  (Hblocks : blocks u = fst (loadBlocks fileContent))
  (Hreadings : getCJKReading u id =
               map (fun '(f, t) => {| field := Some f; text := Some t |}) prs) :
  (getCardData u id = Ret None <-> getCodePoint u id = None) /\
  (forall cp, getCodePoint u id = Some cp ->
   getCardData u id = Ret (Some
     {| card_id := id; card_name := name cp;
        description :=
          js "Name: " ++ tmpl (name cp) ++ [10] ++
          js "Block: " ++
            match getBlock u id with
            | Some b => match block_name b with
                        | Some (c :: s) => c :: s
                        | _ => js "Unknown"
                        end
            | None => js "Unknown"
            end ++ [10] ++
          js_join [10] (map (fun '(f, t) => drop 1 f ++ js ": " ++ t) prs);
        char := [id mod 65536];
        blockName := match getBlock u id ≫= block_name with
                     | Some nm => nm
                     | None => []
                     end;
        blockColor := match getBlock u id with
                      | Some b => color b
                      | None => js "#ffffff"
                      end |})) /\
  (prs = [] -> forall cp, getCodePoint u id = Some cp ->
   exists c, getCardData u id = Ret (Some c) /\
     description c = js "Name: " ++ tmpl (name cp) ++ [10] ++ js "Block: " ++
       match getBlock u id with
       | Some b => match block_name b with
                   | Some (c :: s) => c :: s
                   | _ => js "Unknown"
                   end
       | None => js "Unknown"
       end ++ [10]).
Proof.
  assert (Hcard : forall cp, getCodePoint u id = Some cp ->
   getCardData u id = Ret (Some
     {| card_id := id; card_name := name cp;
        description :=
          js "Name: " ++ tmpl (name cp) ++ [10] ++
          js "Block: " ++
            match getBlock u id with
            | Some b => match block_name b with
                        | Some (c :: s) => c :: s
                        | _ => js "Unknown"
                        end
            | None => js "Unknown"
            end ++ [10] ++
          js_join [10] (map (fun '(f, t) => drop 1 f ++ js ": " ++ t) prs);
        char := [id mod 65536];
        blockName := match getBlock u id ≫= block_name with
                     | Some nm => nm
                     | None => []
                     end;
        blockColor := match getBlock u id with
                      | Some b => color b
                      | None => js "#ffffff"
                      end |})).
  { intros cp Hcp. unfold getCardData. rewrite Hcp, Hreadings, reading_lines_pairs.
    destruct (getBlock u id) as [b|] eqn:Hb; [|reflexivity].
    destruct (getBlock_loaded fileContent u id b Hblocks Hb) as [nm [Hn Hc]].
    simpl. rewrite Hn, Hc. destruct nm; reflexivity. }
  split; [|split].
  - split.
    + intros H. destruct (getCodePoint u id) as [cp|] eqn:Hcp; [|reflexivity].
      rewrite (Hcard cp eq_refl) in H. discriminate.
    + intros H. unfold getCardData. rewrite H. reflexivity.
  - exact Hcard.
  - intros -> cp Hcp. eexists. split; [exact (Hcard cp Hcp)|].
    cbn [description js_join map]. rewrite ?app_nil_r. reflexivity.
Qed.

Lemma card_data_composition_witness :
  blocks unnamed_block_index = fst (loadBlocks unnamed_block_file) /\
  getCJKReading unnamed_block_index 0 =
    map (fun '(f, t) => {| field := Some f; text := Some t |}) ([] : list (jsstr * jsstr)) /\
  (getCardData unnamed_block_index 0 = Ret None <-> getCodePoint unnamed_block_index 0 = None).
Proof.
  assert (H1 : blocks unnamed_block_index = fst (loadBlocks unnamed_block_file))
    by reflexivity.
  assert (H2 : getCJKReading unnamed_block_index 0 =
    map (fun '(f, t) => {| field := Some f; text := Some t |}) ([] : list (jsstr * jsstr)))
    by (vm_compute; reflexivity).
  refine (conj H1 (conj H2 _)).
  exact (proj1 (card_data_composition unnamed_block_file unnamed_block_index 0 [] H1 H2)).
Defined.

(** ** Claim C9 *)

Lemma split_go_no_sep (w cur : jsstr) :
  ~ In 59 w -> split_go [59] w cur = [rev cur ++ w].
Proof.
  revert cur. induction w as [|x w IH]; intros cur Hw; cbn [split_go].
  - rewrite app_nil_r. reflexivity.
  - cbn [rev app starts_with].
    destruct (Z.eqb_spec 59 x) as [<-|Hne]; [exfalso; apply Hw; left; reflexivity|].
    cbn [andb]. rewrite IH by (intros H; apply Hw; right; exact H).
    cbn [rev]. rewrite <- app_assoc. reflexivity.
Qed.

Lemma split_go_sep (w rest cur : jsstr) :
  ~ In 59 w -> split_go [59] (w ++ 59 :: rest) cur = (rev cur ++ w) :: split_go [59] rest [].
Proof.
  revert cur. induction w as [|x w IH]; intros cur Hw; cbn [app split_go rev starts_with].
  - rewrite Z.eqb_refl. cbn [andb length skipn]. rewrite app_nil_r.
    reflexivity.
  - destruct (Z.eqb_spec 59 x) as [<-|Hne]; [exfalso; apply Hw; left; reflexivity|].
    cbn [andb]. rewrite IH by (intros H; apply Hw; right; exact H).
    cbn [rev]. rewrite <- app_assoc. reflexivity.
Qed.

Lemma split_join_semicolon (fs : list jsstr) :
  fs <> [] -> Forall (fun s => ~ In 59 s) fs ->
  js_split (js ";") (js_join (js ";") fs) = fs.
Proof.
  change (js ";") with [59]. unfold js_split.
  induction fs as [|x [|y l] IH]; intros Hne Hf; [congruence| |].
  - inversion Hf; subst. simpl js_join. rewrite split_go_no_sep by assumption.
    reflexivity.
  - inversion Hf as [|? ? Hx Hl]; subst.
    change (js_join [59] (x :: y :: l)) with (x ++ 59 :: js_join [59] (y :: l)).
    rewrite split_go_sep by assumption. rewrite IH by (congruence || assumption). reflexivity.
Qed.

Lemma hex_digit_range (c : Z) :
  hex_digit c <> None -> 48 <= c <= 57 \/ 97 <= c <= 102 \/ 65 <= c <= 70.
Proof.
  unfold hex_digit.
  destruct (Z.leb_spec 48 c), (Z.leb_spec c 57); simpl; try lia;
  destruct (Z.leb_spec 97 c), (Z.leb_spec c 102); simpl; try lia;
  destruct (Z.leb_spec 65 c), (Z.leb_spec c 70); simpl; try lia; congruence.
Qed.

Ltac decide_code_unit :=
  repeat (match goal with
          | |- context [?a =? ?b] => destruct (Z.eqb_spec a b)
          | |- context [?a <=? ?b] => destruct (Z.leb_spec a b)
          end; try lia);
  reflexivity.

Lemma hex_digit_not_ws (c : Z) : hex_digit c <> None -> is_ws c = false.
Proof.
  intros H. apply hex_digit_range in H. unfold is_ws. decide_code_unit.
Qed.

Lemma parseInt16_hex (f : jsstr) :
  f <> [] -> Forall (fun c => hex_digit c <> None) f ->
  parseInt16 f = Some (digits_value (hex_prefix f)).
Proof.
  intros Hne Hf. destruct f as [|c t]; [congruence|].
  inversion Hf as [|? ? Hc Ht]; subst.
  pose proof (hex_digit_range c Hc) as Hr.
  unfold parseInt16. cbn [trim_start]. rewrite (hex_digit_not_ws c Hc).
  replace (c =? 45) with false by (symmetry; apply Z.eqb_neq; lia).
  replace (c =? 43) with false by (symmetry; apply Z.eqb_neq; lia).
  assert (Hp : exists d ds, hex_prefix (c :: t) = d :: ds).
  { cbn [hex_prefix]. destruct (hex_digit c) as [d|]; [|congruence]. eauto. }
  destruct Hp as [d [ds Hp]].
  destruct t as [|c2 t'].
  - rewrite Hp. rewrite Z.mul_1_l. reflexivity.
  - inversion Ht as [|? ? Hc2 _]; subst.
    pose proof (hex_digit_range c2 Hc2).
    replace (c2 =? 120) with false by (symmetry; apply Z.eqb_neq; lia).
    replace (c2 =? 88) with false by (symmetry; apply Z.eqb_neq; lia).
    rewrite andb_false_r. rewrite Hp. rewrite Z.mul_1_l. reflexivity.
Qed.

(** C9 (parse round trip), counterexample.  [0041;LATIN CAPITAL LETTER A;...]
    and the same line with field 0 written [41] are both valid lines and
    parse to the same record, so no re-serialization returns both original
    lines; rendering the id back with [toString16] gives [41]. *)
Lemma parse_roundtrip_counterexample :
  parseCodePoint latin_a_line = parseCodePoint latin_a_short_line /\
  latin_a_line <> latin_a_short_line /\
  serialize (parseCodePoint latin_a_line) <> latin_a_line.
Proof.
  split; [vm_compute; reflexivity|].
  split; vm_compute; discriminate.
Qed.

(** C9 (parse round trip), amended.  For a line of 15 [";"]-separated
    fields whose field 0 is a non-empty run of hexadecimal digits of value
    at most [2^53] (above it JavaScript's [parseInt] rounds), the
    parsed record keeps fields 1 to 14 exactly and stores the hexadecimal
    value of field 0 as its id; re-serializing gives back fields 1 to 14
    exactly and field 0 as the lower-case, unpadded hex rendering of that
    value. *)
Theorem parse_fields_roundtrip (f0 : jsstr) (fs : list jsstr)
  (Hf0 : f0 <> []) (Hhex : Forall (fun c => hex_digit c <> None) f0)
  (Hbound : digits_value (hex_prefix f0) <= 2 ^ 53)
  (Hlen : length fs = 14%nat) (Hsep : Forall (fun s => ~ In 59 s) fs) :
  cp_id (parseCodePoint (js_join (js ";") (f0 :: fs))) = Some (digits_value (hex_prefix f0)) /\
  fields_of (parseCodePoint (js_join (js ";") (f0 :: fs))) = map Some fs /\
  serialize (parseCodePoint (js_join (js ";") (f0 :: fs))) =
    js_join (js ";") (toString16 (digits_value (hex_prefix f0)) :: fs).
Proof.
  assert (Hf0sep : ~ In 59 f0).
  { intros Hin. pose proof (proj1 (List.Forall_forall _ _) Hhex 59 Hin) as H59.
    apply hex_digit_range in H59. lia. }
  unfold parseCodePoint.
  rewrite split_join_semicolon by (congruence || (constructor; assumption)).
  do 14 (destruct fs as [|? fs]; [discriminate|]).
  destruct fs; [|discriminate].
  cbn [js_get nth_error]. rewrite (parseInt16_hex f0 Hf0 Hhex).
  split; [reflexivity|]. split; reflexivity.
Qed.

Lemma parse_fields_roundtrip_witness :
  js "0041" <> [] /\ Forall (fun c => hex_digit c <> None) (js "0041") /\
  digits_value (hex_prefix (js "0041")) <= 2 ^ 53 /\
  length latin_a_fields = 14%nat /\ Forall (fun s => ~ In 59 s) latin_a_fields /\
  serialize (parseCodePoint (js_join (js ";") (js "0041" :: latin_a_fields))) =
    js_join (js ";") (toString16 (digits_value (hex_prefix (js "0041"))) :: latin_a_fields).
Proof.
  assert (H1 : js "0041" <> []) by discriminate.
  assert (H2 : Forall (fun c => hex_digit c <> None) (js "0041")).
  { vm_compute. repeat constructor; discriminate. }
  assert (H5 : digits_value (hex_prefix (js "0041")) <= 2 ^ 53).
  { apply Z.leb_le. vm_compute. reflexivity. }
  assert (H3 : length latin_a_fields = 14%nat) by reflexivity.
  assert (H4 : Forall (fun s => ~ In 59 s) latin_a_fields).
  { vm_compute. repeat constructor; simpl; lia. }
  refine (conj H1 (conj H2 (conj H5 (conj H3 (conj H4 _))))).
  exact (proj2 (proj2 (parse_fields_roundtrip (js "0041") latin_a_fields H1 H2 H5 H3 H4))).
Defined.

(** * Further properties of the code *)

Lemma cjk_step_num (k : Z) (st : CJKState) (line : jsstr) :
  default [] (cjk_num (cjk_step st line) !! k) =
  default [] (cjk_num st !! k) ++ cjk_readings_of k [line].
Proof.
  unfold cjk_step, cjk_readings_of. cbn [flat_map].
  destruct (skipped_line line); [simpl; rewrite !app_nil_r; reflexivity|].
  destruct (parseCJKReading line) as [id r]. rewrite app_nil_r.
  destruct id as [k'|]; cbn [cjk_get cjk_set cjk_num].
  - destruct (cjk_num st !! k') as [rs|] eqn:Hk; cbn [cjk_get cjk_set cjk_num].
    + rewrite Hk. cbn [cjk_num].
      destruct (decide (k' = k)) as [<-|Hne].
      * rewrite lookup_insert_eq, Hk. rewrite decide_True by reflexivity. reflexivity.
      * rewrite lookup_insert_ne by congruence.
        destruct (decide (Some k' = Some k)); [congruence|]. rewrite app_nil_r. reflexivity.
    + rewrite lookup_insert_eq. cbn [cjk_num]. rewrite insert_insert_eq.
      destruct (decide (k' = k)) as [<-|Hne].
      * rewrite lookup_insert_eq, Hk. rewrite decide_True by reflexivity. reflexivity.
      * rewrite lookup_insert_ne by congruence.
        destruct (decide (Some k' = Some k)); [congruence|]. rewrite app_nil_r. reflexivity.
  - destruct (decide (None = Some k)); [congruence|]. rewrite app_nil_r.
    destruct (cjk_nan st) eqn:E; simpl; rewrite ?E; reflexivity.
Qed.

Lemma cjk_fold_num (k : Z) (lines : list jsstr) (st : CJKState) :
  default [] (cjk_num (fold_left cjk_step lines st) !! k) =
  default [] (cjk_num st !! k) ++ cjk_readings_of k lines.
Proof.
  revert st. induction lines as [|line lines IH]; intros st; cbn [fold_left].
  - simpl. rewrite app_nil_r. reflexivity.
  - rewrite IH, cjk_step_num, <- app_assoc. unfold cjk_readings_of. cbn [flat_map].
    rewrite app_nil_r. reflexivity.
Qed.

(** [loadCJKData] collects, for every id, the readings of the lines with
    that id in file order; the readings present before are dropped. *)
Theorem loadCJKData_readings (fileContent : jsstr) (u : UnicodeData) (k : Z) :
  getCJKReading (loadCJKData fileContent u) k =
  cjk_readings_of k (js_split [10] fileContent).
Proof.
  unfold getCJKReading, loadCJKData. cbn [cjkData].
  pose proof (cjk_fold_num k (js_split [10] fileContent) {| cjk_num := ∅; cjk_nan := None |}) as H.
  cbn [cjk_num] in H. rewrite lookup_empty in H. simpl in H.
  destruct (_ !! k); exact H.
Qed.

(** [getCardData] throws exactly when the code point is known and one of
    its CJK readings has no field tag. *)
Lemma reading_lines_throw (rs : list CJKReading) :
  reading_lines rs = Throw <-> exists r, In r rs /\ field r = None.
Proof.
  induction rs as [|r rs IH]; simpl.
  - split; [discriminate|]. intros (x & [] & _).
  - unfold reading_line. destruct (field r) as [f|] eqn:Hf.
    + destruct (reading_lines rs) as [ls|] eqn:Hl.
      * split; [discriminate|]. intros (x & [<-|Hx] & Hn); [congruence|].
        assert (Ret ls = Throw) by (apply IH; eauto). discriminate.
      * split; [|reflexivity]. intros _. destruct (proj1 IH eq_refl) as (x & Hx & Hn). eauto.
    + split; [|reflexivity]. intros _. exists r. auto.
Qed.

(** [getCardData] throws exactly when the code point has data and one of
    its CJK readings has an [undefined] field ([reading.field.slice(1)]). *)
Theorem getCardData_throw (u : UnicodeData) (id : Z) :
  getCardData u id = Throw <->
  getCodePoint u id <> None /\ exists r, In r (getCJKReading u id) /\ field r = None.
Proof.
  unfold getCardData. destruct (getCodePoint u id) as [cp|].
  - rewrite <- reading_lines_throw.
    destruct (reading_lines (getCJKReading u id)).
    + split; [discriminate|]. intros [_ H]. discriminate.
    + split; [|reflexivity]. intros _. split; [discriminate|reflexivity].
  - split; [discriminate|]. intros [H _]. congruence.
Qed.

Lemma split_go_unit_no_sep (c : Z) (w cur : jsstr) :
  ~ In c w -> split_go [c] w cur = [rev cur ++ w].
Proof.
  revert cur. induction w as [|x w IH]; intros cur Hw; cbn [split_go].
  - rewrite app_nil_r. reflexivity.
  - cbn [rev app starts_with].
    destruct (Z.eqb_spec c x) as [<-|Hne]; [exfalso; apply Hw; left; reflexivity|].
    cbn [andb]. rewrite IH by (intros H; apply Hw; right; exact H).
    cbn [rev]. rewrite <- app_assoc. reflexivity.
Qed.

Lemma split_go_unit_sep (c : Z) (w rest cur : jsstr) :
  ~ In c w -> split_go [c] (w ++ c :: rest) cur = (rev cur ++ w) :: split_go [c] rest [].
Proof.
  revert cur. induction w as [|x w IH]; intros cur Hw; cbn [app split_go rev starts_with].
  - rewrite Z.eqb_refl. cbn [andb length skipn]. rewrite app_nil_r. reflexivity.
  - destruct (Z.eqb_spec c x) as [<-|Hne]; [exfalso; apply Hw; left; reflexivity|].
    cbn [andb]. rewrite IH by (intros H; apply Hw; right; exact H).
    cbn [rev]. rewrite <- app_assoc. reflexivity.
Qed.

Lemma first_occurrence (c : Z) (l : jsstr) :
  In c l -> exists w rest, l = w ++ c :: rest /\ ~ In c w.
Proof.
  induction l as [|x l IH]; intros H; [destruct H|].
  destruct (Z.eq_dec x c) as [->|Hne].
  - exists [], l. split; [reflexivity|]. intros [].
  - destruct H as [H|H]; [congruence|].
    destruct (IH H) as (w & rest & -> & Hw). exists (x :: w), rest.
    split; [reflexivity|]. intros [H'|H']; [congruence|contradiction].
Qed.

Lemma split_go_cons (sep s cur : jsstr) : exists x l, split_go sep s cur = x :: l.
Proof.
  revert cur. induction s as [|y s IH]; intros cur; cbn [split_go]; [eauto|].
  destruct (starts_with (rev sep) (y :: cur)); eauto.
Qed.

Lemma split_second_none (c : Z) (l : jsstr) :
  nth_error (js_split [c] l) 1 = None <-> ~ In c l.
Proof.
  unfold js_split. split.
  - intros H Hin. destruct (first_occurrence c l Hin) as (w & rest & -> & Hw).
    rewrite split_go_unit_sep in H by exact Hw.
    destruct (split_go_cons [c] rest []) as (x & l' & E). rewrite E in H.
    discriminate.
  - intros H. rewrite split_go_unit_no_sep by exact H. reflexivity.
Qed.

(** A code-point line has a name exactly when it contains a [";"]. *)
Lemma parseCodePoint_name_none (line : jsstr) :
  name (parseCodePoint line) = None <-> ~ In 59 line.
Proof. apply split_second_none. Qed.

Lemma parseBlock_name_none (line : jsstr) :
  block_name (parseBlock line) = None <-> ~ In 59 line.
Proof. apply split_second_none. Qed.

Lemma loader_step_throw (rangeStart rangeEnd : Z) (st : LoaderState) (line : jsstr) :
  loader_step rangeStart rangeEnd st line = Throw <->
  starts_with (js "#") line = false /\
  (exists k, cp_id (parseCodePoint line) = Some k /\ rangeStart <= k <= rangeEnd) /\
  ~ In 59 line.
Proof.
  rewrite <- parseCodePoint_name_none. unfold loader_step.
  destruct (starts_with (js "#") line).
  { split; [discriminate|]. intros [H _]. discriminate. }
  destruct (cp_id (parseCodePoint line)) as [k|].
  2:{ split; [discriminate|]. intros (_ & (k' & H & _) & _). discriminate. }
  destruct (Z.ltb_spec k rangeStart), (Z.ltb_spec rangeEnd k); cbn [orb].
  1-3: split; [discriminate|]; intros (_ & (k' & Hk & Hb) & _); injection Hk as <-; lia.
  destruct (name (parseCodePoint line)) as [n|].
  - split; [|intros (_ & _ & Hn); discriminate].
    intros Hs. exfalso. revert Hs.
    repeat (case_match; try discriminate).
  - split; [intros _|reflexivity]. split; [reflexivity|]. split; [|reflexivity].
    exists k. split; [reflexivity|lia].
Qed.

Lemma loader_loop_raised (rangeStart rangeEnd : Z) (st : LoaderState) (lines : list jsstr) :
  snd (loader_loop rangeStart rangeEnd st lines) = true <->
  exists line, In line lines /\ loader_step rangeStart rangeEnd st line = Throw.
Proof.
  revert st. induction lines as [|line lines IH]; intros st; cbn [loader_loop].
  - split; [discriminate|]. intros (l & [] & _).
  - destruct (loader_step rangeStart rangeEnd st line) as [st'|] eqn:Hs.
    + rewrite IH. split.
      * intros (l & Hl & Ht). exists l. split; [right; exact Hl|].
        apply loader_step_throw. apply loader_step_throw in Ht. exact Ht.
      * intros (l & [<-|Hl] & Ht); [congruence|]. exists l. split; [exact Hl|].
        apply loader_step_throw. apply loader_step_throw in Ht. exact Ht.
    + split; [intros _; exists line; split; [left; reflexivity|exact Hs]|reflexivity].
Qed.

(** [addUnicodeData] throws exactly when some line that is not a comment
    has an id inside the scan bound but no [";"] (its name is then
    [undefined]). *)
Theorem addUnicodeData_throws (rangeStart rangeEnd : Z) (fileContent : jsstr) (u : UnicodeData) :
  snd (addUnicodeData rangeStart rangeEnd fileContent u) = true <->
  exists line, In line (js_split [10] fileContent) /\
    starts_with (js "#") line = false /\
    (exists k, cp_id (parseCodePoint line) = Some k /\ rangeStart <= k <= rangeEnd) /\
    ~ In 59 line.
Proof.
  unfold addUnicodeData.
  destruct (loader_loop rangeStart rangeEnd {| ld_data := data u; rangeFirst := 0 |}
              (js_split [10] fileContent)) as [st raised] eqn:E.
  cbn [snd].
  pose proof (loader_loop_raised rangeStart rangeEnd {| ld_data := data u; rangeFirst := 0 |}
                (js_split [10] fileContent)) as H.
  rewrite E in H. cbn [snd] in H. rewrite H.
  split; intros (l & Hl & Ht); exists l; split; try exact Hl.
  - apply loader_step_throw in Ht. exact Ht.
  - apply loader_step_throw. exact Ht.
Qed.

Lemma blocks_loop_raised (blockID : Z) (lines : list jsstr) :
  snd (blocks_loop blockID lines) = true <->
  exists line, In line lines /\ skipped_line line = false /\ ~ In 59 line.
Proof.
  revert blockID. induction lines as [|line lines IH]; intros blockID; cbn [blocks_loop].
  - split; [discriminate|]. intros (l & [] & _).
  - fold (skipped_line line).
    destruct (skipped_line line) eqn:Hsk.
    + rewrite IH. split.
      * intros (l & Hl & H). exists l. split; [right; exact Hl|exact H].
      * intros (l & [<-|Hl] & Hs & Hn); [congruence|]. exists l. auto.
    + destruct (block_name (parseBlock line)) as [nm|] eqn:Hn.
      * destruct (blocks_loop (blockID + 1) lines) as [bs raised] eqn:E.
        cbn [snd]. specialize (IH (blockID + 1)). rewrite E in IH. cbn [snd] in IH.
        rewrite IH. split.
        -- intros (l & Hl & H). exists l. split; [right; exact Hl|exact H].
        -- intros (l & [<-|Hl] & Hs & Hnn).
           ++ apply parseBlock_name_none in Hnn. congruence.
           ++ exists l. auto.
      * split; [intros _|reflexivity]. exists line. split; [left; reflexivity|].
        split; [exact Hsk|]. apply parseBlock_name_none. exact Hn.
Qed.

(** [loadBlocks] throws exactly when some line that is neither a comment
    nor blank has no [";"]. *)
Theorem loadBlocks_throws (fileContent : jsstr) :
  snd (loadBlocks fileContent) = true <->
  exists line, In line (js_split [10] fileContent) /\
    skipped_line line = false /\ ~ In 59 line.
Proof. apply blocks_loop_raised. Qed.

Lemma blocks_loop_nth (blockID : Z) (lines : list jsstr) (i : nat) (b : BlockData) :
  nth_error (fst (blocks_loop blockID lines)) i = Some b ->
  block_id b = blockID + Z.of_nat i /\
  exists line, In line lines /\ skipped_line line = false /\
    block_start b = block_start (parseBlock line) /\
    block_end b = block_end (parseBlock line) /\
    block_name b = block_name (parseBlock line).
Proof.
  revert blockID i. induction lines as [|line lines IH]; intros blockID i H;
    cbn [blocks_loop] in H; [destruct i; discriminate|].
  fold (skipped_line line) in H.
  destruct (skipped_line line) eqn:Hsk.
  - destruct (IH blockID i H) as [Hid (l & Hl & Hrest)].
    split; [exact Hid|]. exists l. split; [right; exact Hl|exact Hrest].
  - destruct (block_name (parseBlock line)) as [nm|] eqn:Hn; [|destruct i; discriminate].
    destruct (blocks_loop (blockID + 1) lines) as [bs raised] eqn:E.
    destruct i as [|i]; cbn [fst nth_error] in H.
    + injection H as <-. split; [cbn [block_id]; lia|].
      exists line. split; [left; reflexivity|]. split; [exact Hsk|].
      cbn [block_start block_end block_name]. auto.
    + specialize (IH (blockID + 1) i). rewrite E in IH. cbn [fst] in IH.
      destruct (IH H) as [Hid (l & Hl & Hrest)]. split; [lia|].
      exists l. split; [right; exact Hl|exact Hrest].
Qed.

(** The [i]-th block [loadBlocks] produces has id [i], and its range and
    name are those [parseBlock] reads from a line of the file that is
    neither a comment nor blank. *)
Theorem loadBlocks_nth (fileContent : jsstr) (i : nat) (b : BlockData) :
  nth_error (fst (loadBlocks fileContent)) i = Some b ->
  block_id b = Z.of_nat i /\
  exists line, In line (js_split [10] fileContent) /\ skipped_line line = false /\
    block_start b = block_start (parseBlock line) /\
    block_end b = block_end (parseBlock line) /\
    block_name b = block_name (parseBlock line).
Proof.
  intros H. apply blocks_loop_nth in H as [Hid Hrest]. split; [lia|exact Hrest].
Qed.

Lemma fold_insert_union (f : Z -> CodePointData) (l : list Z) (m d : gmap Z CodePointData) :
  fold_left (fun d id => <[id := f id]> d) l (m ∪ d) =
  fold_left (fun d id => <[id := f id]> d) l m ∪ d.
Proof.
  revert m. induction l as [|x l IH]; intros m; cbn [fold_left]; [reflexivity|].
  rewrite <- IH, insert_union_l. reflexivity.
Qed.

Lemma addRange_union (a b : Z) (rangeName : jsstr) (cp : CodePointData)
  (m d : gmap Z CodePointData) :
  addRange a b rangeName cp (m ∪ d) = addRange a b rangeName cp m ∪ d.
Proof. apply fold_insert_union. Qed.

Lemma loader_step_union (rangeStart rangeEnd : Z) (m d : gmap Z CodePointData) (r : Z)
  (line : jsstr) :
  match loader_step rangeStart rangeEnd {| ld_data := m ∪ d; rangeFirst := r |} line,
        loader_step rangeStart rangeEnd {| ld_data := m; rangeFirst := r |} line with
  | Ret s1, Ret s2 => ld_data s1 = ld_data s2 ∪ d /\ rangeFirst s1 = rangeFirst s2
  | Throw, Throw => True
  | _, _ => False
  end.
Proof.
  unfold loader_step. cbv zeta.
  destruct (starts_with (js "#") line); [cbn [ld_data rangeFirst]; auto|].
  destruct (cp_id (parseCodePoint line)) as [k|]; [|cbn [ld_data rangeFirst]; auto].
  destruct ((k <? rangeStart) || (rangeEnd <? k)); [cbn [ld_data rangeFirst]; auto|].
  destruct (name (parseCodePoint line)) as [n|]; [|exact I].
  destruct (ends_with (js ">") n).
  2:{ cbn [ld_data rangeFirst]. split; [apply insert_union_l|reflexivity]. }
  destruct (ends_with (js "First>") n); [cbn [ld_data rangeFirst]; auto|].
  destruct (ends_with (js "Last>") n); [|cbn [ld_data rangeFirst]; auto].
  destruct (includes (js "CJK") (slice n 1 (-7)) || includes (js "Hangul") (slice n 1 (-7)));
    cbn [ld_data rangeFirst]; auto using addRange_union.
Qed.

Lemma loader_loop_union (rangeStart rangeEnd : Z) (lines : list jsstr)
  (m d : gmap Z CodePointData) (r : Z) :
  ld_data (fst (loader_loop rangeStart rangeEnd {| ld_data := m ∪ d; rangeFirst := r |} lines)) =
  ld_data (fst (loader_loop rangeStart rangeEnd {| ld_data := m; rangeFirst := r |} lines)) ∪ d /\
  snd (loader_loop rangeStart rangeEnd {| ld_data := m ∪ d; rangeFirst := r |} lines) =
  snd (loader_loop rangeStart rangeEnd {| ld_data := m; rangeFirst := r |} lines).
Proof.
  revert m r. induction lines as [|line lines IH]; intros m r; cbn [loader_loop].
  - cbn [fst snd ld_data]. auto.
  - pose proof (loader_step_union rangeStart rangeEnd m d r line) as H.
    destruct (loader_step rangeStart rangeEnd {| ld_data := m ∪ d; rangeFirst := r |} line)
      as [s1|], (loader_step rangeStart rangeEnd {| ld_data := m; rangeFirst := r |} line)
      as [s2|]; try contradiction.
    + destruct s1 as [d1 r1], s2 as [d2 r2]. cbn [ld_data rangeFirst] in H.
      destruct H as [-> ->]. apply IH.
    + cbn [fst snd ld_data]. auto.
Qed.

(** Loading into an index that already has records gives the records the
    file yields on its own, with the earlier records kept where the file
    stores nothing (a left-biased union), and the same error outcome; the
    blocks and CJK readings are untouched. *)
Theorem addUnicodeData_union (rangeStart rangeEnd : Z) (fileContent : jsstr) (u : UnicodeData) :
  data (fst (addUnicodeData rangeStart rangeEnd fileContent u)) =
    data (fst (addUnicodeData rangeStart rangeEnd fileContent emptyUnicodeData)) ∪ data u /\
  snd (addUnicodeData rangeStart rangeEnd fileContent u) =
    snd (addUnicodeData rangeStart rangeEnd fileContent emptyUnicodeData) /\
  blocks (fst (addUnicodeData rangeStart rangeEnd fileContent u)) = blocks u /\
  cjkData (fst (addUnicodeData rangeStart rangeEnd fileContent u)) = cjkData u.
Proof.
  pose proof (loader_loop_union rangeStart rangeEnd (js_split [10] fileContent) ∅ (data u) 0)
    as [Hd Hr].
  rewrite (left_id_L ∅ union (data u)) in Hd, Hr.
  unfold addUnicodeData. cbn [data emptyUnicodeData].
  destruct (loader_loop rangeStart rangeEnd {| ld_data := data u; rangeFirst := 0 |}
              (js_split [10] fileContent)) as [s1 b1].
  destruct (loader_loop rangeStart rangeEnd {| ld_data := ∅; rangeFirst := 0 |}
              (js_split [10] fileContent)) as [s2 b2].
  cbn [fst snd data blocks cjkData] in *. auto.
Qed.

Lemma UnicodeData_eq (x y : UnicodeData) :
  data x = data y -> blocks x = blocks y -> cjkData x = cjkData y -> x = y.
Proof. destruct x, y. cbn. intros -> -> ->. reflexivity. Qed.

(** Loading the same file twice leaves the same index as loading it once. *)
Theorem addUnicodeData_idempotent (rangeStart rangeEnd : Z) (fileContent : jsstr)
  (u : UnicodeData) :
  fst (addUnicodeData rangeStart rangeEnd fileContent
         (fst (addUnicodeData rangeStart rangeEnd fileContent u))) =
  fst (addUnicodeData rangeStart rangeEnd fileContent u) /\
  snd (addUnicodeData rangeStart rangeEnd fileContent
         (fst (addUnicodeData rangeStart rangeEnd fileContent u))) =
  snd (addUnicodeData rangeStart rangeEnd fileContent u).
Proof.
  set (u1 := fst (addUnicodeData rangeStart rangeEnd fileContent u)).
  destruct (addUnicodeData_union rangeStart rangeEnd fileContent u1) as (Hd2 & Hr2 & Hb2 & Hc2).
  destruct (addUnicodeData_union rangeStart rangeEnd fileContent u) as (Hd1 & Hr1 & Hb1 & Hc1).
  fold u1 in Hd1, Hr1, Hb1, Hc1.
  split; [|congruence].
  apply UnicodeData_eq; [|exact Hb2|exact Hc2].
  rewrite Hd2, Hd1, (assoc_L union), (idemp_L union). reflexivity.
Qed.

(** Every record the code-point loader stores sits at the key of its own
    id: if this holds of the index before loading, it holds after. *)
Lemma range_record_id (rangeName : jsstr) (cp : CodePointData) (id : Z) :
  cp_id (range_record rangeName cp id) = Some id.
Proof. reflexivity. Qed.

Lemma addRange_keyed (a b : Z) (rangeName : jsstr) (cp : CodePointData)
  (d : gmap Z CodePointData) :
  map_Forall (fun k c => cp_id c = Some k) d ->
  map_Forall (fun k c => cp_id c = Some k) (addRange a b rangeName cp d).
Proof.
  unfold addRange. generalize (zrange a b). intros l. revert d.
  induction l as [|x l IH]; intros d Hd; cbn [fold_left]; [exact Hd|].
  apply IH. apply map_Forall_insert_2; [apply range_record_id|exact Hd].
Qed.

Lemma loader_loop_keyed (rangeStart rangeEnd : Z) (lines : list jsstr) (st : LoaderState) :
  map_Forall (fun k c => cp_id c = Some k) (ld_data st) ->
  map_Forall (fun k c => cp_id c = Some k) (ld_data (fst (loader_loop rangeStart rangeEnd st lines))).
Proof.
  revert st. induction lines as [|line lines IH]; intros st Hst; cbn [loader_loop]; [exact Hst|].
  destruct (loader_step rangeStart rangeEnd st line) as [st'|] eqn:Hs; [|exact Hst].
  apply IH. revert Hs. unfold loader_step. cbv zeta.
  destruct (starts_with (js "#") line); [intros [= <-]; exact Hst|].
  destruct (cp_id (parseCodePoint line)) as [k|] eqn:Hk; [|intros [= <-]; exact Hst].
  destruct ((k <? rangeStart) || (rangeEnd <? k)); [intros [= <-]; exact Hst|].
  destruct (name (parseCodePoint line)) as [n|]; [|discriminate].
  destruct (ends_with (js ">") n).
  2:{ intros [= <-]. cbn [ld_data]. apply map_Forall_insert_2; [exact Hk|exact Hst]. }
  destruct (ends_with (js "First>") n); [intros [= <-]; exact Hst|].
  destruct (ends_with (js "Last>") n); [|intros [= <-]; exact Hst].
  destruct (includes (js "CJK") (slice n 1 (-7)) || includes (js "Hangul") (slice n 1 (-7)));
    intros [= <-]; [|exact Hst].
  apply addRange_keyed. exact Hst.
Qed.

(** If every record of the index is stored under its own id, the same holds
    after [addUnicodeData]: single lines are stored under their parsed id and
    range records get the id they are stored under. *)
Theorem addUnicodeData_keyed (rangeStart rangeEnd : Z) (fileContent : jsstr) (u : UnicodeData)
  (Hu : map_Forall (fun k c => cp_id c = Some k) (data u)) :
  map_Forall (fun k c => cp_id c = Some k)
    (data (fst (addUnicodeData rangeStart rangeEnd fileContent u))).
Proof.
  unfold addUnicodeData.
  pose proof (loader_loop_keyed rangeStart rangeEnd (js_split [10] fileContent)
                {| ld_data := data u; rangeFirst := 0 |} Hu) as H.
  destruct (loader_loop rangeStart rangeEnd {| ld_data := data u; rangeFirst := 0 |}
              (js_split [10] fileContent)). exact H.
Qed.

Lemma hex_not_in (c : Z) (h : jsstr) :
  Forall (fun d => hex_digit d <> None) h -> ~ (48 <= c <= 57 \/ 97 <= c <= 102 \/ 65 <= c <= 70) ->
  ~ In c h.
Proof.
  intros Hh Hc Hin. apply Hc. apply hex_digit_range.
  exact (proj1 (List.Forall_forall _ _) Hh c Hin).
Qed.

Lemma replace_first_prefix (p r s : jsstr) :
  replace_first p r (p ++ s) = r ++ s.
Proof.
  destruct p as [|x p]; simpl.
  - destruct s; reflexivity.
  - assert (H : starts_with (x :: p) (x :: p ++ s) = true).
    { clear. revert x. induction p as [|y p IH]; intros x; simpl; rewrite Z.eqb_refl; [reflexivity|].
      apply IH. }
    simpl in H. rewrite H. rewrite drop_app_length. reflexivity.
Qed.

(** A line of the Unihan readings file, ["U+<hex>\t<field>\t<text>"],
    whose hex value is at most [2^53] (where [parseInt] is exact), parses
    to the hex value and the reading (field, text). *)
Theorem parseCJKReading_line (h f t : jsstr)
  (Hh : h <> []) (Hhex : Forall (fun d => hex_digit d <> None) h)
  (Hb : digits_value (hex_prefix h) <= 2 ^ 53)
  (Hf : ~ In 9 f) (Ht : ~ In 9 t) :
  parseCJKReading (js "U+" ++ h ++ 9 :: f ++ 9 :: t) =
  (Some (digits_value (hex_prefix h)), {| field := Some f; text := Some t |}).
Proof.
  unfold parseCJKReading, js_split.
  assert (H9 : ~ In 9 (js "U+" ++ h)).
  { intros Hin. apply in_app_or in Hin as [Hin|Hin].
    - change (js "U+") with [85; 43] in Hin. simpl in Hin. lia.
    - revert Hin. apply hex_not_in; [exact Hhex|lia]. }
  rewrite app_assoc, split_go_unit_sep by exact H9.
  rewrite split_go_unit_sep by exact Hf.
  rewrite split_go_unit_no_sep by exact Ht.
  cbn [rev app js_get nth_error tmpl].
  rewrite replace_first_prefix. cbn [app].
  rewrite parseInt16_hex by assumption. reflexivity.
Qed.

Lemma split_go_dotdot_none (w cur : jsstr) :
  ~ In 46 w -> split_go [46; 46] w cur = [rev cur ++ w].
Proof.
  revert cur. induction w as [|x w IH]; intros cur Hw; cbn [split_go].
  - rewrite app_nil_r. reflexivity.
  - cbn [rev app starts_with].
    destruct (Z.eqb_spec 46 x) as [<-|Hne]; [exfalso; apply Hw; left; reflexivity|].
    cbn [andb]. rewrite IH by (intros H; apply Hw; right; exact H).
    cbn [rev]. rewrite <- app_assoc. reflexivity.
Qed.

Lemma split_go_dotdot (w rest cur : jsstr) :
  ~ In 46 w -> hd_error (rev w ++ cur) <> Some 46 ->
  split_go [46; 46] (w ++ 46 :: 46 :: rest) cur = (rev cur ++ w) :: split_go [46; 46] rest [].
Proof.
  revert cur. induction w as [|x w IH]; intros cur Hw Hhd.
  - rewrite app_nil_r. destruct cur as [|y cur]; cbn [app split_go rev starts_with].
    + reflexivity.
    + destruct (Z.eqb_spec 46 y) as [<-|Hne]; [cbn in Hhd; congruence|]. reflexivity.
  - cbn [app split_go rev starts_with].
    destruct (Z.eqb_spec 46 x) as [<-|Hne]; [exfalso; apply Hw; left; reflexivity|].
    cbn [andb]. rewrite IH.
    + cbn [rev]. rewrite <- app_assoc. reflexivity.
    + intros H; apply Hw; right; exact H.
    + cbn [rev] in Hhd. rewrite <- app_assoc in Hhd. exact Hhd.
Qed.

(** A line of Blocks.txt, ["<hex>..<hex>;<name>"], with both hex values
    at most [2^53] (where [parseInt] is exact), gives the block with
    those bounds and that name (id 0 and an empty color, which [loadBlocks]
    then sets). *)
Theorem parseBlock_line (h1 h2 nm : jsstr)
  (Hh1 : h1 <> []) (Hhex1 : Forall (fun d => hex_digit d <> None) h1)
  (Hh2 : h2 <> []) (Hhex2 : Forall (fun d => hex_digit d <> None) h2)
  (Hb1 : digits_value (hex_prefix h1) <= 2 ^ 53)
  (Hb2 : digits_value (hex_prefix h2) <= 2 ^ 53)
  (Hnm : ~ In 59 nm) :
  parseBlock (h1 ++ js ".." ++ h2 ++ 59 :: nm) =
  {| block_id := 0; block_start := Some (digits_value (hex_prefix h1));
     block_end := Some (digits_value (hex_prefix h2));
     block_name := Some nm; color := [] |}.
Proof.
  unfold parseBlock, js_split.
  assert (N59_1 : ~ In 59 h1) by (apply hex_not_in; [exact Hhex1|lia]).
  assert (N59_2 : ~ In 59 h2) by (apply hex_not_in; [exact Hhex2|lia]).
  assert (N46_1 : ~ In 46 h1) by (apply hex_not_in; [exact Hhex1|lia]).
  assert (N46_2 : ~ In 46 h2) by (apply hex_not_in; [exact Hhex2|lia]).
  change (js ";") with [59].
  replace (h1 ++ js ".." ++ h2 ++ 59 :: nm) with ((h1 ++ js ".." ++ h2) ++ 59 :: nm)
    by (rewrite <- !app_assoc; reflexivity).
  rewrite split_go_unit_sep.
  2:{ intros Hin. apply in_app_or in Hin as [Hin|Hin]; [contradiction|].
      apply in_app_or in Hin as [Hin|Hin]; [change (js "..") with [46; 46] in Hin; simpl in Hin; lia|contradiction]. }
  rewrite split_go_unit_no_sep by exact Hnm.
  cbn [rev app js_get nth_error tmpl].
  change (js "..") with [46; 46]. cbn [app].
  assert (Hhd : hd_error (rev h1 ++ []) <> Some 46).
  { rewrite app_nil_r. destruct (rev h1) as [|y r] eqn:E; [discriminate|].
    cbn. intros [= ->]. apply N46_1. apply in_rev. rewrite E. left. reflexivity. }
  rewrite (split_go_dotdot h1 h2 [] N46_1 Hhd).
  rewrite split_go_dotdot_none by exact N46_2.
  cbn [rev app js_get nth_error tmpl]. unfold parseInt16_field. cbn [tmpl].
  rewrite !parseInt16_hex by assumption. reflexivity.
Qed.

(** [getBlock] returns the first block, in list order, whose parsed start
    and end both exist and enclose the code point; it returns [null]
    exactly when there is no such block. *)
Theorem getBlock_first (u : UnicodeData) (c : Z) (b : BlockData) :
  (getBlock u c = Some b <->
   exists i s e, nth_error (blocks u) i = Some b /\
     block_start b = Some s /\ block_end b = Some e /\ s <= c <= e /\
     forall j b', (j < i)%nat -> nth_error (blocks u) j = Some b' -> in_block c b' = false) /\
  (getBlock u c = None <-> forall b', In b' (blocks u) -> in_block c b' = false).
Proof.
  assert (Hg : getBlock u c = find (in_block c) (blocks u))
    by (unfold getBlock; destruct (blocks u); reflexivity).
  rewrite Hg. clear Hg. generalize (blocks u) as bs. intros bs.
  assert (Hin : forall b', in_block c b' = true <->
            exists s e, block_start b' = Some s /\ block_end b' = Some e /\ s <= c <= e).
  { intros b'. unfold in_block.
    destruct (block_start b') as [s|], (block_end b') as [e|];
      try (split; [discriminate|intros (s' & e' & H1 & H2 & _); discriminate]).
    rewrite andb_true_iff, Z.leb_le, Z.leb_le. split.
    - intros [H1 H2]. exists s, e. repeat split; assumption.
    - intros (s' & e' & [= <-] & [= <-] & H). lia. }
  split.
  - induction bs as [|x bs IH]; cbn [find].
    + split; [discriminate|]. intros (i & _ & _ & H & _). destruct i; discriminate.
    + destruct (in_block c x) eqn:Hx.
      * split.
        -- intros [= <-]. apply Hin in Hx as (s & e & H). exists 0%nat, s, e.
           split; [reflexivity|]. split; [tauto|]. split; [tauto|]. split; [tauto|].
           intros j b' Hj. lia.
        -- intros (i & s & e & Hi & Hs & He & Hse & Hbefore).
           destruct i as [|i]; [injection Hi as <-; reflexivity|].
           rewrite (Hbefore 0%nat x) in Hx by (reflexivity || lia). discriminate.
      * rewrite IH. split.
        -- intros (i & s & e & Hi & Hs & He & Hse & Hbefore).
           exists (S i), s, e. split; [exact Hi|]. split; [exact Hs|]. split; [exact He|].
           split; [exact Hse|]. intros [|j] b' Hj Hb'; [injection Hb' as <-; exact Hx|].
           apply (Hbefore j); [lia|exact Hb'].
        -- intros (i & s & e & Hi & Hs & He & Hse & Hbefore).
           destruct i as [|i].
           ++ injection Hi as <-. assert (in_block c x = true) by (apply Hin; exists s, e; repeat split; (assumption || lia)). congruence.
           ++ exists i, s, e. split; [exact Hi|]. split; [exact Hs|]. split; [exact He|].
              split; [exact Hse|]. intros j b' Hj Hb'. apply (Hbefore (S j)); [lia|exact Hb'].
  - split.
    + intros H b' Hb'. destruct (in_block c b') eqn:E; [|reflexivity].
      rewrite (find_none _ _ H b' Hb') in E. discriminate.
    + intros H. destruct (find (in_block c) bs) as [x|] eqn:E; [|reflexivity].
      apply find_some in E as [E1 E2]. rewrite H in E2 by exact E1. discriminate.
Qed.

Section PoolQ.
Open Scope Q_scope.

Lemma draw_in (items : list PoolItem) (amount : Z) (rand : nat -> Q) (x : PoolItem) :
  In x (draw items amount rand) -> In x items.
Proof.
  unfold draw. destruct ((length items =? 0)%nat || (amount <=? 0)%Z); [intros []|].
  intros Hx. apply in_flat_map in Hx as (k & _ & Hx).
  unfold pick in Hx. destruct (scan items (rand k * totalWeight items) 0) as [[j y]|] eqn:Hs;
    simpl in Hx; [|destruct Hx].
  destruct Hx as [<-|[]]. apply scan_position in Hs as [_ Hn].
  eapply nth_error_In. exact Hn.
Qed.

Lemma scan_Qeq (l : list PoolItem) (r r' : Q) (p : nat) :
  r == r' -> scan l r p = scan l r' p.
Proof.
  revert r r' p. induction l as [|y l IH]; intros r r' p H; simpl; [reflexivity|].
  destruct (Qlt_le_dec r (weight y)), (Qlt_le_dec r' (weight y)); try (exfalso; lra);
    [reflexivity|]. apply IH. lra.
Qed.

Lemma scan_app_some (l l' : list PoolItem) (r : Q) (p j : nat) (x : PoolItem) :
  scan l r p = Some (j, x) -> scan (l ++ l') r p = Some (j, x).
Proof.
  revert r p. induction l as [|y l IH]; intros r p H; simpl in *; [discriminate|].
  destruct (Qlt_le_dec r (weight y)); [exact H|]. apply IH. exact H.
Qed.

Lemma totalWeight_app (l l' : list PoolItem) :
  totalWeight (l ++ l') == totalWeight l + totalWeight l'.
Proof.
  induction l as [|y l IH]; cbn [app].
  - rewrite totalWeight_nil. ring.
  - rewrite !totalWeight_cons, IH. ring.
Qed.

Lemma scan_all_zero (l : list PoolItem) (r : Q) (p : nat) :
  Forall (fun it => weight it == 0) l -> r == 0 -> scan l r p = None.
Proof.
  revert r p. induction l as [|y l IH]; intros r p Hl Hr; simpl; [reflexivity|].
  inversion Hl as [|? ? Hy Hl']; subst.
  destruct (Qlt_le_dec r (weight y)); [lra|]. apply IH; [exact Hl'|lra].
Qed.

Lemma totalWeight_all_zero (l : list PoolItem) :
  Forall (fun it => weight it == 0) l -> totalWeight l == 0.
Proof.
  induction l as [|y l IH]; intros Hl; [apply totalWeight_nil|].
  inversion Hl as [|? ? Hy Hl']; subst. rewrite totalWeight_cons, (IH Hl'). lra.
Qed.

End PoolQ.

Lemma scan_app_zero (l : list PoolItem) (x : PoolItem) (r : Q) (p : nat) :
  (weight x == 0)%Q -> (0 <= r)%Q -> scan (l ++ [x]) r p = scan l r p.
Proof.
  revert r p. induction l as [|y l IH]; intros r p Hx Hr; simpl.
  - destruct (Qlt_le_dec r (weight x)); [lra|reflexivity].
  - destruct (Qlt_le_dec r (weight y)); [reflexivity|]. apply IH; [exact Hx|lra].
Qed.

Lemma totalWeight_nonneg (l : list PoolItem) :
  Forall (fun it => 0 <= weight it)%Q l -> (0 <= totalWeight l)%Q.
Proof.
  induction l as [|y l IH]; intros Hl; [rewrite totalWeight_nil; lra|].
  inversion Hl as [|? ? Hy Hl']; subst. rewrite totalWeight_cons. specialize (IH Hl'). lra.
Qed.

Lemma flat_map_const_nil {A B} (l : list A) :
  flat_map (fun _ => @nil B) l = [].
Proof. induction l; simpl; auto. Qed.

(** A pool whose items all have weight 0 draws nothing, whatever the
    amount and the random values: [Math.random() * 0] is 0 and [0 < 0]
    fails for every item. *)
Theorem draw_all_zero (items : list PoolItem) (amount : Z) (rand : nat -> Q)
  (Hz : Forall (fun it => weight it == 0)%Q items) :
  draw items amount rand = [].
Proof.
  unfold draw. destruct ((length items =? 0)%nat || (amount <=? 0)); [reflexivity|].
  rewrite (flat_map_ext _ (fun _ => []));  [apply flat_map_const_nil|].
  intros k. unfold pick. rewrite scan_all_zero; [reflexivity|exact Hz|].
  rewrite (totalWeight_all_zero items Hz). ring.
Qed.

(** Adding an item of weight 0 with [addItem] changes no draw, when the
    random values are non-negative and the pool's weights are non-negative:
    the total weight is the same and the scan never stops at the new last
    item. *)
Theorem draw_addItem_zero (p : Pool) (x : PoolItem) (amount : Z) (rand : nat -> Q)
  (Hx : (weight x == 0)%Q) (Hr : forall k, (0 <= rand k)%Q)
  (Hw : Forall (fun it => 0 <= weight it)%Q (items p)) :
  draw (items (addItem p x)) amount rand = draw (items p) amount rand.
Proof.
  unfold draw; cbn [items addItem].
  assert (Hpick : forall k, pick (items p ++ [x]) (rand k * totalWeight (items p ++ [x]))%Q
                            = pick (items p) (rand k * totalWeight (items p))%Q).
  { intros k. unfold pick.
    rewrite (scan_Qeq _ _ (rand k * totalWeight (items p))%Q).
    2:{ rewrite totalWeight_app, (totalWeight_cons x []), totalWeight_nil, Hx. ring. }
    rewrite scan_app_zero; [reflexivity|exact Hx|].
    apply Qmult_le_0_compat; [apply Hr|apply totalWeight_nonneg, Hw]. }
  rewrite length_app. simpl length.
  destruct (amount <=? 0); rewrite ?orb_true_r, ?orb_false_r; [reflexivity|].
  replace ((length (items p) + 1 =? 0)%nat) with false by (symmetry; apply Nat.eqb_neq; lia).
  rewrite (flat_map_ext _ _ (fun k => f_equal opt_list (Hpick k))).
  destruct (length (items p) =? 0)%nat eqn:Hl; [|reflexivity].
  apply Nat.eqb_eq, length_zero_iff_nil in Hl. rewrite Hl.
  apply flat_map_const_nil.
Qed.

Lemma zrange_go_sorted (n : nat) (a : Z) : StronglySorted Z.lt (zrange_go n a).
Proof.
  revert a. induction n as [|n IH]; intros a; simpl; constructor; [apply IH|].
  apply List.Forall_forall. intros i Hi. apply in_zrange_go in Hi. lia.
Qed.

Lemma filter_sorted (f : Z -> bool) (l : list Z) :
  StronglySorted Z.lt l -> StronglySorted Z.lt (List.filter f l).
Proof.
  induction 1 as [|a l Hs IH Hf]; simpl; [constructor|].
  destruct (f a); [|exact IH]. constructor; [exact IH|].
  apply List.Forall_forall. intros b Hb. apply filter_In in Hb as [Hb _].
  rewrite List.Forall_forall in Hf. apply Hf, Hb.
Qed.

Lemma bmp_seed_ids (u : UnicodeData) :
  map item_id (bmp_seed u) =
  List.filter (fun k => match getCodePoint u k with Some _ => true | None => false end)
    (zrange 0 65535).
Proof.
  unfold bmp_seed. induction (zrange 0 65535) as [|k l IH]; simpl; [reflexivity|].
  destruct (getCodePoint u k); simpl; [f_equal|]; exact IH.
Qed.

Lemma bmp_seed_in (u : UnicodeData) (x : PoolItem) :
  In x (bmp_seed u) <-> exists k, x = {| item_id := k; weight := 1 |} /\
                 0 <= k <= 65535 /\ getCodePoint u k <> None.
Proof.
  unfold bmp_seed. rewrite in_flat_map. split.
  - intros (k & Hk & Hx). apply in_zrange in Hk.
    destruct (getCodePoint u k) eqn:E; [|destruct Hx].
    destruct Hx as [<-|[]]. exists k. rewrite E. repeat split; (lia || discriminate).
  - intros (k & -> & Hk & Hc). exists k. split; [apply in_zrange; lia|].
    destruct (getCodePoint u k); [left; reflexivity|congruence].
Qed.

(** [UnicodeBMPPool.initialize] appends to the items one item of weight 1
    for each id of [0 .. 65535] that has code point data, and no other;
    the ids come in strictly increasing order, so each only once.  The
    data is left as it is. *)
Theorem initialize_seed (p : Pool) :
  (exists seed, items (initialize p) = items p ++ seed /\
    (forall x, In x seed <-> exists k, x = {| item_id := k; weight := 1 |} /\
                 0 <= k <= 65535 /\ getCodePoint (unicodeData p) k <> None) /\
    StronglySorted Z.lt (map item_id seed)) /\
  unicodeData (initialize p) = unicodeData p.
Proof.
  split; [|reflexivity]. exists (bmp_seed (unicodeData p)). split; [reflexivity|]. split.
  - apply bmp_seed_in.
  - rewrite bmp_seed_ids. apply filter_sorted, zrange_go_sorted.
Qed.

Lemma getCardData_some (u : UnicodeData) (id : Z) :
  getCodePoint u id <> None ->
  (forall r, In r (getCJKReading u id) -> field r <> None) ->
  exists c, getCardData u id = Ret (Some c) /\ card_id c = id.
Proof.
  intros Hc Hr. unfold getCardData.
  destruct (getCodePoint u id) as [cp|]; [|congruence].
  destruct (reading_lines (getCJKReading u id)) eqn:E.
  - eexists; split; reflexivity.
  - apply reading_lines_throw in E as (r & Hin & Hn). exfalso. exact (Hr r Hin Hn).
Qed.

Lemma map_js_some {A} (f : A -> js_result (option CardData)) (l : list A) (g : A -> Z) :
  (forall a, In a l -> exists c, f a = Ret (Some c) /\ card_id c = g a) ->
  exists cards, map_js f l = Ret (map Some cards) /\ map card_id cards = map g l.
Proof.
  induction l as [|a l IH]; intros H; simpl.
  - exists []. split; reflexivity.
  - destruct (H a (or_introl eq_refl)) as (c & -> & Hc).
    destruct IH as (cs & -> & Hcs); [intros b Hb; apply H; right; exact Hb|].
    exists (c :: cs). simpl. rewrite Hc, Hcs. split; reflexivity.
Qed.

(** [drawCard] on an initialized BMP pool whose own items have code point
    data never throws and never yields [null] when no CJK reading of the
    data lacks its field: it returns one card per drawn item, with the
    drawn item's id, in draw order. *)
Theorem drawCard_seeded (p : Pool) (amount : Z) (rand : nat -> Q)
  (Hitems : Forall (fun it => getCodePoint (unicodeData p) (item_id it) <> None) (items p))
  (Hf : forall k r, In r (getCJKReading (unicodeData p) k) -> field r <> None) :
  exists cards,
    drawCard (initialize p) amount rand = Ret (map Some cards) /\
    map card_id cards = map item_id (draw (items (initialize p)) amount rand).
Proof.
  unfold drawCard. apply map_js_some. intros it Hit.
  apply draw_in in Hit. cbn [items initialize unicodeData] in *.
  apply getCardData_some; [|apply Hf].
  apply in_app_or in Hit as [Hit|Hit].
  - rewrite List.Forall_forall in Hitems. apply Hitems, Hit.
  - apply bmp_seed_in in Hit as (k & -> & _ & Hk). exact Hk.
Qed.

(** In the earlier variant, a second [initialize] after a first one that
    loaded the data without an error loads nothing more (the second file is
    never read) but seeds the items again: every seeded item is then in the
    pool twice. *)
Theorem V0_initialize_twice (f f' : jsstr) (p : V0.UnicodeBMPPool)
  (Hflag : V0.unicodeDataInitialized p = false)
  (Hok : snd (addUnicodeData 0 65535 f (V0.unicodeData p)) = false) :
  let u := fst (addUnicodeData 0 65535 f (V0.unicodeData p)) in
  snd (V0.initialize f p) = false /\
  snd (V0.initialize f' (fst (V0.initialize f p))) = false /\
  V0.unicodeData (fst (V0.initialize f' (fst (V0.initialize f p)))) = u /\
  V0.items (fst (V0.initialize f' (fst (V0.initialize f p)))) =
    V0.items p ++ V0.bmp_seed u ++ V0.bmp_seed u.
Proof.
  unfold V0.initialize. rewrite Hflag.
  destruct (addUnicodeData 0 65535 f (V0.unicodeData p)) as [u r]. simpl in Hok |- *.
  subst r. simpl. rewrite app_assoc. repeat split; reflexivity.
Qed.

Lemma V0_initialize_twice_witness :
  V0.unicodeDataInitialized (V0.new_pool None None) = false /\
  snd (addUnicodeData 0 65535 cjk_example_file (V0.unicodeData (V0.new_pool None None))) = false /\
  V0.items (fst (V0.initialize [] (fst (V0.initialize cjk_example_file (V0.new_pool None None))))) =
    V0.items (V0.new_pool None None) ++
    V0.bmp_seed (fst (addUnicodeData 0 65535 cjk_example_file emptyUnicodeData)) ++
    V0.bmp_seed (fst (addUnicodeData 0 65535 cjk_example_file emptyUnicodeData)).
Proof.
  split; [reflexivity|]. split; [vm_compute; reflexivity|].
  apply (V0_initialize_twice cjk_example_file [] (V0.new_pool None None));
    [reflexivity|vm_compute; reflexivity].
Defined.

(** ** Witnesses *)

Lemma addUnicodeData_keyed_witness :
  map_Forall (fun k c => cp_id c = Some k) (data emptyUnicodeData) /\
  map_Forall (fun k c => cp_id c = Some k)
    (data (fst (addUnicodeData 0 65535 cjk_example_file emptyUnicodeData))).
Proof.
  split; [intros k c Hk; vm_compute in Hk; discriminate|].
  apply addUnicodeData_keyed. intros k c Hk; vm_compute in Hk; discriminate.
Defined.

Lemma parseCJKReading_line_witness :
  parseCJKReading (js "U+" ++ js "4E00" ++ 9 :: js "kMandarin" ++ 9 :: js "yi") =
  (Some 19968, {| field := Some (js "kMandarin"); text := Some (js "yi") |}).
Proof.
  apply (parseCJKReading_line (js "4E00") (js "kMandarin") (js "yi")).
  - discriminate.
  - vm_compute. repeat constructor; discriminate.
  - apply Z.leb_le. vm_compute. reflexivity.
  - vm_compute. intuition discriminate.
  - vm_compute. intuition discriminate.
Defined.

Lemma parseBlock_line_witness :
  parseBlock (js "0000" ++ js ".." ++ js "007F" ++ 59 :: js " Basic Latin") =
  {| block_id := 0; block_start := Some 0; block_end := Some 127;
     block_name := Some (js " Basic Latin"); color := [] |}.
Proof.
  apply (parseBlock_line (js "0000") (js "007F") (js " Basic Latin")).
  - discriminate.
  - vm_compute. repeat constructor; discriminate.
  - discriminate.
  - vm_compute. repeat constructor; discriminate.
  - apply Z.leb_le. vm_compute. reflexivity.
  - apply Z.leb_le. vm_compute. reflexivity.
  - vm_compute. intuition discriminate.
Defined.

Lemma loadBlocks_nth_witness :
  nth_error (fst (loadBlocks basic_latin_blocks)) 0 = Some basic_latin_block /\
  block_id basic_latin_block = 0 /\
  exists line, In line (js_split [10] basic_latin_blocks) /\ skipped_line line = false /\
    block_start basic_latin_block = block_start (parseBlock line) /\
    block_end basic_latin_block = block_end (parseBlock line) /\
    block_name basic_latin_block = block_name (parseBlock line).
Proof.
  split; [vm_compute; reflexivity|].
  apply (loadBlocks_nth basic_latin_blocks 0 basic_latin_block). vm_compute. reflexivity.
Defined.

Lemma draw_all_zero_witness :
  Forall (fun it => weight it == 0)%Q [{| item_id := 1; weight := 0 |}] /\
  draw [{| item_id := 1; weight := 0 |}] 3 (fun _ => 1#2)%Q = [].
Proof.
  split; [repeat constructor|].
  apply draw_all_zero. repeat constructor.
Defined.

Lemma draw_addItem_zero_witness :
  draw (items (addItem two_items_pool {| item_id := 3; weight := 0 |})) 2 (fun _ => 1#2)%Q =
  draw (items two_items_pool) 2 (fun _ => 1#2)%Q.
Proof.
  apply draw_addItem_zero.
  - reflexivity.
  - intros k. unfold Qle. simpl. lia.
  - repeat constructor; unfold Qle; simpl; lia.
Defined.

Lemma drawCard_seeded_witness :
  exists cards,
    drawCard (initialize (new_pool (Some (fst (addUnicodeData 0 65535 cjk_example_file emptyUnicodeData))) None)) 2 (fun _ => 1#2)%Q
      = Ret (map Some cards) /\
    map card_id cards = map item_id (draw (items (initialize (new_pool (Some (fst (addUnicodeData 0 65535 cjk_example_file emptyUnicodeData))) None))) 2 (fun _ => 1#2)%Q).
Proof.
  apply drawCard_seeded.
  - constructor.
  - intros k r Hr. vm_compute in Hr. destruct Hr.
Defined.
